(** * xdg: XDG Base Directory resolution (package [xdg], file [xdg.go])

    A shallow embedding of the Go package and of the parts of the Go
    standard library it calls ([strings], [path/filepath], [os]) on a
    Unix host, followed by the properties of the package.

    Go strings are byte strings; they are modelled by [string], whose
    characters are the 256 values of [ascii].  A Go [[]string] is a
    [list string]; the nil slice and the empty slice are both [[]]. *)

From Stdlib Require Import String Ascii List Bool Arith ZArith Lia.
From stdpp Require Import base option list gmap strings.

(** ** Package [strings] *)

Module GoStrings.

(** [cut sep s] is the text of [s] before its first [sep] together
    with the pieces that follow that separator. *)
Fixpoint cut (sep : ascii) (s : string) : string * list string :=
  match s with
  | EmptyString => (EmptyString, [])
  | String c s' =>
      let '(x, xs) := cut sep s' in
      if decide (c = sep) then (EmptyString, x :: xs) else (String c x, xs)
  end.

(** [strings.Split(s, sep)] for a separator of one byte, the only kind
    this package passes.  The result always has at least one element:
    [Split "" sep = [""]]. *)
Definition Split (s : string) (sep : ascii) : list string :=
  let '(x, xs) := cut sep s in x :: xs.

(** [strings.Join(elems, sep)]. *)
Definition Join (elems : list string) (sep : string) : string :=
  String.concat sep elems.

Definition upper (c : ascii) : ascii :=
  let n := nat_of_ascii c in
  if (97 <=? n) && (n <=? 122) then ascii_of_nat (n - 32) else c.

(** [strings.ToUpper] on ASCII text, which the keys of this package
    are: the letters [a] to [z] become capitals.  (On other text Go maps
    the letters of Unicode as well; the bytes above 127 are kept here.) *)
Fixpoint ToUpper (s : string) : string :=
  match s with
  | EmptyString => EmptyString
  | String c s' => String (upper c) (ToUpper s')
  end.

End GoStrings.

(** ** Package [path/filepath] (Unix) *)

Module Filepath.

Definition Separator : ascii := "/"%char.
Definition ListSeparator : ascii := ":"%char.

Definition IsPathSeparator (c : ascii) : bool := bool_decide (c = Separator).

(** *** [Clean], byte by byte

    The output buffer of [Clean] (its [lazybuf]) is kept as the list of
    the bytes written so far, last byte first: [out.append(c)] is a
    cons, [out.w] is the length and [out.w--] drops the head. *)

(** The inner loop of the [..] case, entered after the first [out.w--]
    removed [removed]: keep removing while [out.w > dotdot] and the
    byte at [out.w] is not a separator. *)
Fixpoint unwind (dotdot : nat) (removed : ascii) (out : list ascii) : list ascii :=
  match out with
  | [] => []
  | c :: out' =>
      if (dotdot <? length out) && negb (IsPathSeparator removed)
      then unwind dotdot c out'
      else out
  end.

Definition backtrack (dotdot : nat) (out : list ascii) : list ascii :=
  match out with
  | [] => []
  | c :: out' => unwind dotdot c out'
  end.

(** The byte [path[r]] and the rest [path[r+1:]] of [p = path[r:]]. *)
Definition next (p : string) : option ascii :=
  match p with
  | EmptyString => None
  | String c _ => Some c
  end.

Definition rest (p : string) : string :=
  match p with
  | EmptyString => EmptyString
  | String _ p' => p'
  end.

(** [atEnd p] is the test [r == n || os.IsPathSeparator(path[r])] on
    [p = path[r:]]. *)
Definition atEnd (p : string) : bool :=
  match p with
  | EmptyString => true
  | String c _ => IsPathSeparator c
  end.

(** The copy loop of the default case: the bytes up to the next
    separator go to the buffer. *)
Fixpoint copyElem (p : string) (out : list ascii) : string * list ascii :=
  match p with
  | EmptyString => (EmptyString, out)
  | String c p' => if IsPathSeparator c then (p, out) else copyElem p' (c :: out)
  end.

(** The main loop [for r < n]; [p] is [path[r:]].  Every iteration
    consumes a byte, so [len(path[r:])] iterations are enough. *)
Fixpoint cleanLoop (fuel : nat) (rooted : bool) (p : string) (out : list ascii)
    (dotdot : nat) : list ascii :=
  match fuel with
  | O => out
  | S fuel =>
      match p with
      | EmptyString => out
      | String c p1 =>
          if IsPathSeparator c then
            cleanLoop fuel rooted p1 out dotdot
          else if bool_decide (c = "."%char) && atEnd p1 then
            cleanLoop fuel rooted p1 out dotdot
          else if bool_decide (c = "."%char)
                  && bool_decide (next p1 = Some "."%char) && atEnd (rest p1) then
            let p2 := rest p1 in
            if dotdot <? length out then
              cleanLoop fuel rooted p2 (backtrack dotdot out) dotdot
            else if negb rooted then
              let out1 := if 0 <? length out then Separator :: out else out in
              let out2 := "."%char :: "."%char :: out1 in
              cleanLoop fuel rooted p2 out2 (length out2)
            else
              cleanLoop fuel rooted p2 out dotdot
          else
            let out1 :=
              if rooted && negb (length out =? 1) || negb rooted && negb (length out =? 0)
              then Separator :: out else out in
            let '(p', out2) := copyElem p out1 in
            cleanLoop fuel rooted p' out2 dotdot
      end
  end.

(** [filepath.Clean]: there is no volume name on Unix and [FromSlash]
    is the identity. *)
Definition Clean (path : string) : string :=
  match path with
  | EmptyString => "."
  | String c p1 =>
      let rooted := IsPathSeparator c in
      let out :=
        if rooted
        then cleanLoop (String.length p1) rooted p1 [Separator] 1
        else cleanLoop (String.length path) rooted path [] 0 in
      match out with
      | [] => "."
      | _ => string_of_list_ascii (reverse out)
      end
  end.

(** *** [Clean], element by element

    The same computation on the elements of the path, that is on
    [strings.Split(path, "/")]: the buffer is the stack of the
    elements written so far, last element first, and [protected]
    counts the elements at its bottom that [..] may not remove (what
    [dotdot] marks in the buffer of bytes).  [Clean_elements] below
    shows that the two agree. *)

Record elems : Set := Elems { stack : list string; protected : nat }.

Definition cleanStep (rooted : bool) (st : elems) (e : string) : elems :=
  if decide (e = "") then st
  else if decide (e = ".") then st
  else if decide (e = "..") then
    if protected st <? length (stack st) then
      Elems (tail (stack st)) (protected st)
    else if negb rooted then
      Elems (".." :: stack st) (S (length (stack st)))
    else st
  else Elems (e :: stack st) (protected st).

Definition sep : string := String Separator "".

Definition render (rooted : bool) (st : elems) : string :=
  if rooted then sep +:+ String.concat sep (reverse (stack st))
  else match stack st with
       | [] => "."
       | _ => String.concat sep (reverse (stack st))
       end.

Definition isRooted (path : string) : bool :=
  match path with
  | EmptyString => false
  | String c _ => IsPathSeparator c
  end.

Definition cleanElements (path : string) : string :=
  if decide (path = "") then "."
  else
    let rooted := isRooted path in
    render rooted (foldl (cleanStep rooted) (Elems [] 0) (GoStrings.Split path Separator)).

(** [filepath.Join]: the elements from the first non-empty one on are
    joined with the separator and cleaned; the result is empty when
    every element is. *)
Fixpoint Join (elem : list string) : string :=
  match elem with
  | [] => ""
  | e :: rest =>
      if decide (e = "") then Join rest
      else Clean (GoStrings.Join elem sep)
  end.

(** [filepath.SplitList]. *)
Definition SplitList (path : string) : list string :=
  if decide (path = "") then [] else GoStrings.Split path ListSeparator.

End Filepath.

(** ** Package [os] (Unix) *)

Module Os.

(** The process environment is a [gmap string string]: the variables
    that are set, with their values (which may be empty). *)

(** [os.LookupEnv]: the value and whether the variable is present. *)
Definition LookupEnv (env : gmap string string) (key : string) : string * bool :=
  match env !! key with
  | Some v => (v, true)
  | None => ("", false)
  end.

(** [os.Getenv]: empty when the variable is not present. *)
Definition Getenv (env : gmap string string) (key : string) : string :=
  fst (LookupEnv env key).

(** [syscall.Errno], as far as [os.Stat] reports it. *)
Inductive Errno : Set :=
  ENOENT | EACCES | ENOTDIR | ELOOP | ENAMETOOLONG | EIO.

(** A Go [error] value: [nil], the [*fs.PathError] of a failed system
    call, the value [fs.ErrNotExist], or the result of [errors.New]. *)
Inductive error : Set :=
| nil
| PathError (op path : string) (errno : Errno)
| ErrNotExist
| errorString (msg : string).

(** [os.UserHomeDir] on Unix: the value of [$HOME] unless it is unset
    or empty. *)
Definition UserHomeDir (env : gmap string string) : string * error :=
  let v := Getenv env "HOME" in
  if decide (v = "") then ("", errorString "$HOME is not defined")
  else (v, nil).

(** [os.IsNotExist]: the error underlying [err] is [ErrNotExist] or
    the error number [ENOENT]. *)
Definition IsNotExist (err : error) : bool :=
  match err with
  | PathError _ _ ENOENT => true
  | ErrNotExist => true
  | _ => false
  end.

(** What [os.Stat] tells about an entry. *)
Record FileInfo : Set := { IsDir : bool; Size : nat }.

(** A file system, seen through [os.Stat]: for every path either the
    information on the entry or the error number of the failed call. *)
Definition FileSystem : Set := string -> FileInfo + Errno.

(** [os.Stat]. *)
Definition Stat (fs : FileSystem) (path : string) : option FileInfo * error :=
  match fs path with
  | inl fi => (Some fi, nil)
  | inr e => (None, PathError "stat" path e)
  end.

End Os.

(** ** Package [xdg] *)

Definition listSeparator : string := String Filepath.ListSeparator "".
Definition defaultHomeBase : string := ".config".
Definition defaultCacheBase : string := ".cache".
Definition defaultDataBase : string := ".local/share".
Definition defaultStateBase : string := ".local/state".
Definition defaultDataDirs : string := "/usr/local/share/:/usr/share/".
Definition defaultConfigDirs : string := "/etc/xdg".

Definition configHomeKey : string := "XDG_CONFIG_HOME".
Definition cacheHomeKey : string := "XDG_CACHE_HOME".
Definition dataHomeKey : string := "XDG_DATA_HOME".
Definition stateHomeKey : string := "XDG_STATE_HOME".
Definition runtimeDirKey : string := "XDG_RUNTIME_DIR".
Definition dataDirsKey : string := "XDG_DATA_DIRS".
Definition configDirsKey : string := "XDG_CONFIG_DIRS".

(** *** [type Dir string]

    [Dir.Create] is [os.MkdirAll]; it changes the file system and no
    property below is about it, so it has no counterpart here. *)

Definition Dir : Set := string.

Definition exists_ (fs : Os.FileSystem) (path : string) : bool :=
  let '(_, err) := Os.Stat fs path in
  negb (Os.IsNotExist err).

Definition Dir_Exists (fs : Os.FileSystem) (d : Dir) : bool := exists_ fs d.
Definition Dir_String (d : Dir) : string := d.
Definition Dir_Append (d : Dir) (name : string) : Dir := Filepath.Join [d; name].

(** Go's [len], index expression [p[i]] and slice expression [p[lo:hi]]
    on a slice, with their run-time checks: out of range they panic,
    which is the result [None]. *)
Definition len {A} (p : list A) : Z := Z.of_nat (length p).

Definition index {A} (p : list A) (i : Z) : option A :=
  if bool_decide (0 <= i < len p)%Z then p !! Z.to_nat i else None.

Definition slice {A} (p : list A) (lo hi : Z) : option (list A) :=
  if bool_decide (0 <= lo <= hi /\ hi <= len p)%Z
  then Some (take (Z.to_nat (hi - lo)) (drop (Z.to_nat lo) p))
  else None.

(** [Dir.Split]. *)
Definition Dir_Split (d : Dir) : option (list string) :=
  let p := GoStrings.Split d Filepath.Separator in
  if bool_decide (len p > 0)%Z then
    p0 ← index p 0;
    p ← (if bool_decide (String.length p0 = 0) then slice p 1 (len p) else Some p);
    pl ← index p (len p - 1);
    if bool_decide (String.length pl = 0) then slice p 0 (len p - 1) else Some p
  else Some p.

(** *** [DirFinder] and [XDG] *)

Class DirFinder (F : Type) := { Name : F -> string }.

Record dirFinder : Set := NewDirFinder { name : string }.

#[export] Instance dirFinder_DirFinder : DirFinder dirFinder := {| Name := name |}.

Record XDG (F : Type) : Type := NewXDG { finder : F }.
Arguments NewXDG {F} finder.
Arguments finder {F} x.

(** The methods of [*XDG].  Each call reads the environment [env] of the
    process afresh; the home directory is found through it as well. *)
Section Methods.
Context {F : Type} `{DirFinder F}.
Variable env : gmap string string.

Definition defaultVal (xdg : XDG F) (home key : string) : string :=
  let key' := GoStrings.ToUpper key in
  let base :=
    if decide (key' = configHomeKey) then Some (Filepath.Join [home; defaultHomeBase])
    else if decide (key' = cacheHomeKey) then Some (Filepath.Join [home; defaultCacheBase])
    else if decide (key' = dataHomeKey) then Some (Filepath.Join [home; defaultDataBase])
    else if decide (key' = stateHomeKey) then Some (Filepath.Join [home; defaultStateBase])
    else None in
  match base with
  | None => ""
  | Some base => Filepath.Join [base; Name (finder xdg)]
  end.

Definition getDir (xdg : XDG F) (key : string) : string :=
  let '(val, ok) := Os.LookupEnv env key in
  if ok then Filepath.Join [val; Name (finder xdg)]
  else if decide (key = runtimeDirKey) then ""
  else
    let '(home, err) := Os.UserHomeDir env in
    match err with
    | Os.nil =>
        let def := defaultVal xdg home key in
        if 0 <? String.length def then def
        else Filepath.Join [home; "." +:+ Name (finder xdg)]
    | _ => ""
    end.

(** The loop [for i := range paths { paths[i] = filepath.Join(paths[i], name) }]. *)
Definition joinEach (name : string) (paths : list string) : list string :=
  foldl (fun paths i =>
           match paths !! i with
           | Some x => <[i := Filepath.Join [x; name]]> paths
           | None => paths
           end)
        paths (seq 0 (length paths)).

Definition getDirs (xdg : XDG F) (key : string) : list string :=
  let '(v, ok) := Os.LookupEnv env key in
  let p :=
    if ok then v
    else if decide (key = dataDirsKey) then defaultDataDirs
    else if decide (key = configDirsKey) then defaultConfigDirs
    else "" in
  if 0 <? String.length p then
    let paths := Filepath.SplitList p in
    let name := Name (finder xdg) in
    joinEach name paths
  else [].

Definition XDG_Config (xdg : XDG F) : string := getDir xdg configHomeKey.
Definition XDG_Cache (xdg : XDG F) : string := getDir xdg cacheHomeKey.
Definition XDG_Data (xdg : XDG F) : string := getDir xdg dataHomeKey.
Definition XDG_State (xdg : XDG F) : string := getDir xdg stateHomeKey.
Definition XDG_Runtime (xdg : XDG F) : string := getDir xdg runtimeDirKey.
Definition XDG_ConfigDirs (xdg : XDG F) : list string := getDirs xdg configDirsKey.
Definition XDG_DataDirs (xdg : XDG F) : list string := getDirs xdg dataDirsKey.

End Methods.

(** *** The functions of the package *)

Definition newXdg (name : string) : XDG dirFinder := NewXDG (NewDirFinder name).

Definition Config (env : gmap string string) (name : string) : string :=
  XDG_Config env (newXdg name).
Definition State (env : gmap string string) (name : string) : string :=
  XDG_State env (newXdg name).
Definition Data (env : gmap string string) (name : string) : string :=
  XDG_Data env (newXdg name).
Definition Cache (env : gmap string string) (name : string) : string :=
  XDG_Cache env (newXdg name).
Definition Runtime (env : gmap string string) (name : string) : string :=
  XDG_Runtime env (newXdg name).
Definition ConfigDirs (env : gmap string string) (name : string) : list string :=
  XDG_ConfigDirs env (newXdg name).
Definition DataDirs (env : gmap string string) (name : string) : list string :=
  XDG_DataDirs env (newXdg name).

(** *** The roles and their keys *)

Inductive HomeRole : Set := ConfigHome | CacheHome | DataHome | StateHome.

Inductive SingleRole : Set := Home (r : HomeRole) | RuntimeDir.

Inductive SearchRole : Set := ConfigDirsRole | DataDirsRole.

Definition homeKey (r : HomeRole) : string :=
  match r with
  | ConfigHome => configHomeKey
  | CacheHome => cacheHomeKey
  | DataHome => dataHomeKey
  | StateHome => stateHomeKey
  end.

Definition singleKey (r : SingleRole) : string :=
  match r with
  | Home r => homeKey r
  | RuntimeDir => runtimeDirKey
  end.

Definition searchKey (r : SearchRole) : string :=
  match r with
  | ConfigDirsRole => configDirsKey
  | DataDirsRole => dataDirsKey
  end.

(** The method of [*XDG] that resolves a role. *)
Definition resolve {F} `{DirFinder F} (env : gmap string string) (xdg : XDG F)
    (r : SingleRole) : string :=
  match r with
  | Home ConfigHome => XDG_Config env xdg
  | Home CacheHome => XDG_Cache env xdg
  | Home DataHome => XDG_Data env xdg
  | Home StateHome => XDG_State env xdg
  | RuntimeDir => XDG_Runtime env xdg
  end.

Definition resolveDirs {F} `{DirFinder F} (env : gmap string string) (xdg : XDG F)
    (r : SearchRole) : list string :=
  match r with
  | ConfigDirsRole => XDG_ConfigDirs env xdg
  | DataDirsRole => XDG_DataDirs env xdg
  end.

(** The default base of a home-based role, as the specification of the
    package words it. *)
Definition defaultBase (r : HomeRole) : string :=
  match r with
  | ConfigHome => ".config"
  | CacheHome => ".cache"
  | DataHome => ".local/share"
  | StateHome => ".local/state"
  end.

(** The test scenario of the package: [$HOME] is [/home/t] and no XDG
    variable is set. *)
Definition testEnv : gmap string string := {[ "HOME" := "/home/t" ]}.

Definition test_name : string := "go-xdg-test".

(** The second half of that scenario, after the calls of [os.Setenv]. *)
Definition testEnvSet : gmap string string :=
  <[configDirsKey := "/h/t/.conf"]>
    (<[dataDirsKey := "/h/t/.local/share/datas:/xdg-data"]>
       (<[runtimeDirKey := "/h/t/.local/share/run"]>
          (<[stateHomeKey := "/h/t/.local/share/state"]>
             (<[dataHomeKey := "/h/t/.local/share/dat"]>
                (<[cacheHomeKey := "/h/t/.local/cache"]>
                   (<[configHomeKey := "/h/t/.conf"]> testEnv)))))).

(** ** Definitions for the proofs *)

(** [sepFree c0 s]: the byte [c0] does not occur in [s]. *)
Fixpoint sepFree (c0 : ascii) (s : string) : Prop :=
  match s with
  | EmptyString => True
  | String c s' => c <> c0 /\ sepFree c0 s'
  end.

(** An element that [Clean] writes as it is. *)
Definition real (e : string) : Prop :=
  e <> "" /\ e <> "." /\ e <> ".." /\ sepFree Filepath.Separator e.

(** The shape of the stack: real elements above [protected] times
    [..], the latter only in a path that is not rooted. *)
Definition wf (rooted : bool) (st : Filepath.elems) : Prop :=
  exists reals,
    Filepath.stack st = reals ++ replicate (Filepath.protected st) ".."
    /\ Forall real reals
    /\ (rooted = true -> Filepath.protected st = 0).

(** What the buffer holds before the first element. *)
Definition base (rooted : bool) : list ascii :=
  if rooted then [Filepath.Separator] else [].

Definition glue (stk : list string) : list ascii :=
  match stk with
  | [] => []
  | _ => [Filepath.Separator]
  end.

(** The buffer of bytes (last byte first) that holds the stack [stk]. *)
Fixpoint flat (rooted : bool) (stk : list string) : list ascii :=
  match stk with
  | [] => base rooted
  | e :: stk' => reverse (list_ascii_of_string e) ++ glue stk' ++ flat rooted stk'
  end.

(** The value of [dotdot] for a stack: the length of the buffer that
    holds its protected elements. *)
Definition mark (rooted : bool) (st : Filepath.elems) : nat :=
  let stk := Filepath.stack st in
  length (flat rooted (drop (length stk - Filepath.protected st) stk)).

(** The default list of a search-path role. *)
Definition defaultList (r : SearchRole) : list string :=
  match r with
  | ConfigDirsRole => ["/etc/xdg"]
  | DataDirsRole => ["/usr/local/share/"; "/usr/share/"]
  end.

(** What [Split] is to return: the textual split without one leading
    and one trailing empty segment. *)
Definition dropLeadingEmpty (p : list string) : list string :=
  match p with
  | "" :: p' => p'
  | _ => p
  end.

Definition dropTrailingEmpty (p : list string) : list string :=
  match last p with
  | Some "" => take (length p - 1) p
  | _ => p
  end.

Definition splitSegments (d : Dir) : list string :=
  dropTrailingEmpty (dropLeadingEmpty (GoStrings.Split d Filepath.Separator)).

(** ** Definitions for the further properties *)

(** The stack of elements that [Clean] holds at the end of [p]. *)
Definition cleanState (p : string) : Filepath.elems :=
  foldl (Filepath.cleanStep (Filepath.isRooted p)) (Filepath.Elems [] 0)
        (GoStrings.Split p Filepath.Separator).

(** [filepath.IsAbs] on Unix: the path begins with the separator. *)
Definition IsAbs (path : string) : bool := Filepath.isRooted path.

(** The home-based role whose key is [key], if there is one. *)
Definition homeRoleOf (key : string) : option HomeRole :=
  if decide (key = configHomeKey) then Some ConfigHome
  else if decide (key = cacheHomeKey) then Some CacheHome
  else if decide (key = dataHomeKey) then Some DataHome
  else if decide (key = stateHomeKey) then Some StateHome
  else None.

(** The text that [getDirs] splits: the value of the variable, else the
    default of the key, else nothing. *)
Definition dirsValue (env : gmap string string) (key : string) : string :=
  match env !! key with
  | Some v => v
  | None =>
      if decide (key = dataDirsKey) then defaultDataDirs
      else if decide (key = configDirsKey) then defaultConfigDirs
      else ""
  end.

(** ** Test cases

    [filepath.Clean] on the table of its own test ([cleantests] in
    [path_test.go] of the Go distribution). *)

Example Clean_cleantests :
  map Filepath.Clean
    ["abc";
     "abc/def";
     ".";
     "..";
     "../..";
     "../../abc";
     "/abc";
     "/";
     "";
     "abc/";
     "abc/def/";
     "./";
     "../";
     "../../";
     "/abc/";
     "abc//def//ghi";
     "//abc";
     "///abc";
     "//abc//";
     "abc//";
     "abc/./def";
     "/./abc/def";
     "abc/.";
     "abc/def/ghi/../jkl";
     "abc/def/../ghi/../jkl";
     "abc/def/..";
     "abc/def/../..";
     "/abc/def/../..";
     "abc/def/../../..";
     "/abc/def/../../..";
     "abc/def/../../../ghi/jkl/../../../mno";
     "/../abc";
     "a/../b:/../../c";
     "abc/./../def";
     "abc//./../def";
     "abc/../../././../def";
     "...";
     "a/..b/.c/../d."]
  = ["abc";
     "abc/def";
     ".";
     "..";
     "../..";
     "../../abc";
     "/abc";
     "/";
     ".";
     "abc";
     "abc/def";
     ".";
     "..";
     "../..";
     "/abc";
     "abc/def/ghi";
     "/abc";
     "/abc";
     "/abc";
     "abc";
     "abc/def";
     "/abc/def";
     "abc";
     "abc/def/jkl";
     "abc/jkl";
     "abc";
     ".";
     "/";
     "..";
     "/";
     "../../mno";
     "/abc";
     "../c";
     "def";
     "def";
     "../../def";
     "...";
     "a/..b/d."].
Proof. reflexivity. Qed.

Example Split_empty : GoStrings.Split "" "/" = [""].
Proof. reflexivity. Qed.

Example Split_slashes : GoStrings.Split "/a//b/" "/" = [""; "a"; ""; "b"; ""].
Proof. reflexivity. Qed.

Example Join_skips_empty : Filepath.Join [""; ""; "a"; ""; "b"] = "a/b".
Proof. reflexivity. Qed.

Example Join_all_empty : Filepath.Join [""; ""] = "".
Proof. reflexivity. Qed.

(** The tests of the package ([TestDefaultVal], [TestGetDir_NoHome] and
    [TestDir]). *)

Example TestDefaultVal_unset :
  getDir testEnv (newXdg test_name) "unknown_key" = "/home/t/.go-xdg-test"
  /\ getDirs testEnv (newXdg test_name) "unknown_key" = []
  /\ getDir testEnv (newXdg test_name) configHomeKey = "/home/t/.config/go-xdg-test"
  /\ getDir testEnv (newXdg test_name) cacheHomeKey = "/home/t/.cache/go-xdg-test"
  /\ getDir testEnv (newXdg test_name) dataHomeKey = "/home/t/.local/share/go-xdg-test"
  /\ getDir testEnv (newXdg test_name) stateHomeKey = "/home/t/.local/state/go-xdg-test"
  /\ Config testEnv test_name = "/home/t/.config/go-xdg-test"
  /\ Cache testEnv test_name = "/home/t/.cache/go-xdg-test"
  /\ Data testEnv test_name = "/home/t/.local/share/go-xdg-test"
  /\ State testEnv test_name = "/home/t/.local/state/go-xdg-test"
  /\ Runtime testEnv test_name = ""
  /\ DataDirs testEnv test_name
     = ["/usr/local/share/go-xdg-test"; "/usr/share/go-xdg-test"]
  /\ ConfigDirs testEnv test_name = ["/etc/xdg/go-xdg-test"].
Proof. by repeat split. Qed.

Example TestDefaultVal_set :
  getDir testEnvSet (newXdg test_name) configHomeKey = "/h/t/.conf/go-xdg-test"
  /\ getDir testEnvSet (newXdg test_name) cacheHomeKey = "/h/t/.local/cache/go-xdg-test"
  /\ getDir testEnvSet (newXdg test_name) dataHomeKey = "/h/t/.local/share/dat/go-xdg-test"
  /\ getDir testEnvSet (newXdg test_name) stateHomeKey
     = "/h/t/.local/share/state/go-xdg-test"
  /\ getDir testEnvSet (newXdg test_name) runtimeDirKey
     = "/h/t/.local/share/run/go-xdg-test"
  /\ DataDirs testEnvSet test_name
     = ["/h/t/.local/share/datas/go-xdg-test"; "/xdg-data/go-xdg-test"]
  /\ ConfigDirs testEnvSet test_name = ["/h/t/.conf/go-xdg-test"].
Proof. vm_compute. by repeat split. Qed.

Example TestGetDir_NoHome : getDir ∅ (newXdg test_name) configHomeKey = "".
Proof. reflexivity. Qed.

Example TestDir :
  Dir_String "/tmp/me/.local/share/run/" = "/tmp/me/.local/share/run/"
  /\ Dir_Split "/tmp/me/.local/share/run/" = Some ["tmp"; "me"; ".local"; "share"; "run"]
  /\ Dir_String (Dir_Append "/tmp/me/.local/share/run/" "x")
     = "/tmp/me/.local/share/run/x".
Proof. by repeat split. Qed.

Example Dir_Split_root : Dir_Split "/" = Some [].
Proof. reflexivity. Qed.

(** ** Facts on [strings.Split] *)

Section SplitFacts.
Import GoStrings.
Variable c0 : ascii.

Lemma cut_sepFree s : sepFree c0 s -> cut c0 s = (s, []).
Proof.
  induction s as [|c s IH]; simpl; [done|].
  intros [Hc Hs]. rewrite (IH Hs). by destruct (decide (c = c0)).
Qed.

Lemma Split_sepFree s : sepFree c0 s -> Split s c0 = [s].
Proof. intros Hs. unfold Split. by rewrite cut_sepFree. Qed.

Lemma cut_app_sep s t :
  cut c0 (s +:+ String c0 t) = (fst (cut c0 s), snd (cut c0 s) ++ Split t c0).
Proof.
  induction s as [|c s IH]; simpl.
  - unfold Split. destruct (cut c0 t) as [x xs].
    by destruct (decide (c0 = c0)).
  - rewrite IH. destruct (cut c0 s) as [x xs]; simpl.
    by destruct (decide (c = c0)).
Qed.

Lemma Split_app_sep s t :
  Split (s +:+ String c0 t) c0 = Split s c0 ++ Split t c0.
Proof.
  unfold Split at 1 2. rewrite cut_app_sep.
  by destruct (cut c0 s) as [x xs].
Qed.

Lemma cut_pieces_sepFree s :
  sepFree c0 (fst (cut c0 s)) /\ Forall (sepFree c0) (snd (cut c0 s)).
Proof.
  induction s as [|c s [IH1 IH2]]; simpl; [by split|].
  destruct (cut c0 s) as [x xs]; simpl in *.
  destruct (decide (c = c0)); simpl; split; auto.
Qed.

Lemma Split_pieces_sepFree s : Forall (sepFree c0) (Split s c0).
Proof.
  unfold Split. pose proof (cut_pieces_sepFree s) as [H1 H2].
  destruct (cut c0 s); simpl in *. by constructor.
Qed.

Lemma Split_cons_sep s : Split (String c0 s) c0 = "" :: Split s c0.
Proof.
  unfold Split; simpl. destruct (cut c0 s) as [x xs].
  by destruct (decide (c0 = c0)).
Qed.

Lemma Split_concat segs :
  segs <> [] -> Forall (sepFree c0) segs ->
  Split (String.concat (String c0 "") segs) c0 = segs.
Proof.
  induction segs as [|a [|b r] IH]; [done| |]; intros _ Hall.
  - simpl. apply Split_sepFree. by inversion Hall.
  - change (String.concat (String c0 "") (a :: b :: r))
      with (a +:+ String c0 "" +:+ String.concat (String c0 "") (b :: r)).
    inversion Hall as [|? ? Ha Hr]; subst.
    change (String c0 "" +:+ ?t) with (String c0 t).
    rewrite Split_app_sep, IH by done.
    by rewrite Split_sepFree.
Qed.

End SplitFacts.

(** ** [Clean] on the elements of a path *)

Section CleanElements.
Import Filepath.


Lemma wf_init rooted : wf rooted (Elems [] 0).
Proof. exists []. by repeat split. Qed.

Lemma cleanStep_wf rooted st e :
  sepFree Separator e -> wf rooted st -> wf rooted (cleanStep rooted st e).
Proof.
  intros He (reals & Hst & Hreals & Hroot). unfold cleanStep.
  destruct (decide (e = "")); [by exists reals|].
  destruct (decide (e = ".")); [by exists reals|].
  destruct (decide (e = "..")).
  - destruct st as [stk k]; simpl in *. subst stk.
    rewrite length_app, length_replicate.
    destruct reals as [|r reals]; simpl.
    + rewrite Nat.ltb_irrefl. destruct rooted; simpl.
      * exists []. by repeat split.
      * exists []. simpl. by repeat split.
    + destruct (Nat.ltb_spec k (S (length reals + k))); [|lia].
      exists reals. simpl. repeat split; [|done]. by inversion Hreals.
  - exists (e :: reals). simpl. rewrite Hst. repeat split; [|done].
    constructor; [|done]. by repeat split.
Qed.

Lemma foldl_cleanStep_wf rooted es st :
  Forall (sepFree Separator) es -> wf rooted st ->
  wf rooted (foldl (cleanStep rooted) st es).
Proof.
  intros Hes. revert st.
  induction Hes as [|e es He _ IH]; simpl; [done|].
  intros st Hst. by apply IH, cleanStep_wf.
Qed.

Lemma cleanStep_real rooted st e :
  real e -> cleanStep rooted st e = Elems (e :: stack st) (protected st).
Proof.
  intros (H1 & H2 & H3 & _). unfold cleanStep.
  by rewrite !decide_False.
Qed.

Lemma foldl_cleanStep_reals rooted reals st :
  Forall real reals ->
  foldl (cleanStep rooted) st (reverse reals)
  = Elems (reals ++ stack st) (protected st).
Proof.
  induction 1 as [|e reals He _ IH]; [by destruct st|].
  by rewrite reverse_cons, foldl_app, IH; simpl; rewrite cleanStep_real.
Qed.

Lemma foldl_cleanStep_dotdots k :
  foldl (cleanStep false) (Elems [] 0) (replicate k "..")
  = Elems (replicate k "..") k.
Proof.
  induction k as [|k IH]; [done|].
  rewrite replicate_S_end, foldl_app, IH; simpl.
  unfold cleanStep; simpl. rewrite length_replicate, Nat.ltb_irrefl.
  by rewrite <- replicate_S_end.
Qed.

(** Reading back the elements that were written gives the stack again. *)
Lemma foldl_cleanStep_stack rooted st :
  wf rooted st ->
  foldl (cleanStep rooted) (Elems [] 0) (reverse (stack st)) = st.
Proof.
  intros (reals & Hst & Hreals & Hroot). rewrite Hst.
  rewrite reverse_app, foldl_app, reverse_replicate.
  destruct rooted.
  - rewrite (Hroot eq_refl) in *. simpl.
    rewrite foldl_cleanStep_reals by done. simpl.
    destruct st as [stk k]; simpl in *. by rewrite Hst, Hroot.
  - rewrite foldl_cleanStep_dotdots, foldl_cleanStep_reals by done. simpl.
    destruct st as [stk k]; simpl in *. by rewrite Hst.
Qed.

Lemma append_cons c (s t : string) : String c s +:+ t = String c (s +:+ t).
Proof. reflexivity. Qed.

Lemma append_assoc (s t u : string) : (s +:+ t) +:+ u = s +:+ (t +:+ u).
Proof. induction s as [|c s IH]; [done|]. rewrite !append_cons. by f_equal. Qed.

Lemma isRooted_app x y : x <> "" -> isRooted (x +:+ y) = isRooted x.
Proof. by destruct x. Qed.

Lemma append_nonempty (x y : string) : x <> "" -> x +:+ y <> "".
Proof. by destruct x. Qed.

(** The head of a joined list is the head of its first element. *)
Lemma concat_head e es :
  e <> "" -> exists c t, e = String c t /\
    exists t', String.concat sep (e :: es) = String c t'.
Proof.
  destruct e as [|c t]; [done|]. intros _. exists c, t. split; [done|].
  destruct es; simpl; eauto.
Qed.

Lemma wf_stack_sepFree rooted st :
  wf rooted st -> Forall (fun e => e <> "" /\ sepFree Separator e) (stack st).
Proof.
  intros (reals & -> & Hreals & _). apply Forall_app. split.
  - eapply Forall_impl; [exact Hreals|]. by intros e (? & _ & _ & ?).
  - apply Forall_replicate. split; [done|]. simpl. by repeat split.
Qed.

Lemma wf_stack_nil rooted st : wf rooted st -> stack st = [] -> st = Elems [] 0.
Proof.
  intros (reals & Hst & _ & _) Hnil. destruct st as [stk k]; simpl in *.
  subst stk. destruct reals; [|done]. by destruct k.
Qed.

Lemma render_head rooted st :
  wf rooted st ->
  exists c t, render rooted st = String c t /\ IsPathSeparator c = rooted.
Proof.
  intros Hwf. unfold render. destruct rooted.
  - exists Separator. eexists. by split.
  - destruct (stack st) as [|e stk] eqn:Hstk.
    + exists "."%char, "". by split.
    + pose proof (wf_stack_sepFree _ _ Hwf) as Hall. rewrite Hstk in Hall.
      apply Forall_reverse in Hall.
      destruct (reverse (e :: stk)) as [|e' es] eqn:Hrev.
      { apply (f_equal length) in Hrev. by rewrite length_reverse in Hrev. }
      inversion Hall as [|? ? [Hne Hfree] _]; subst.
      destruct (concat_head e' es Hne) as (c & t & -> & t' & ->).
      exists c, t'. split; [done|]. simpl in Hfree.
      unfold IsPathSeparator. apply bool_decide_eq_false. tauto.
Qed.

Lemma render_nonempty rooted st : wf rooted st -> render rooted st <> "".
Proof. intros Hwf. by destruct (render_head _ _ Hwf) as (c & t & -> & _). Qed.

Lemma isRooted_render rooted st :
  wf rooted st -> isRooted (render rooted st) = rooted.
Proof. intros Hwf. by destruct (render_head _ _ Hwf) as (c & t & -> & ?). Qed.

(** Cleaning what [Clean] wrote leaves the stack as it was. *)
Lemma foldl_cleanStep_render rooted st :
  wf rooted st ->
  foldl (cleanStep rooted) (Elems [] 0) (GoStrings.Split (render rooted st) Separator)
  = st.
Proof.
  intros Hwf. pose proof (wf_stack_sepFree _ _ Hwf) as Hall.
  unfold render. destruct (stack st) as [|e stk] eqn:Hstk.
  - rewrite (wf_stack_nil _ _ Hwf Hstk). by destruct rooted.
  - assert (reverse (e :: stk) <> []) as Hne.
    { intros Hrev. apply (f_equal length) in Hrev.
      by rewrite length_reverse in Hrev. }
    assert (GoStrings.Split (String.concat sep (reverse (e :: stk))) Separator
            = reverse (e :: stk)) as Hsplit.
    { apply Split_concat; [done|]. apply Forall_reverse.
      eapply Forall_impl; [exact Hall|]. by intros ? [_ ?]. }
    destruct rooted.
    + change (sep +:+ ?t) with (String Separator t).
      rewrite Split_cons_sep, Hsplit. simpl.
      rewrite <- Hstk. by apply foldl_cleanStep_stack.
    + rewrite Hsplit, <- Hstk. by apply foldl_cleanStep_stack.
Qed.

Lemma cleanElements_render path :
  path <> "" ->
  cleanElements path
  = render (isRooted path)
      (foldl (cleanStep (isRooted path)) (Elems [] 0) (GoStrings.Split path Separator)).
Proof. intros Hne. unfold cleanElements. by rewrite decide_False. Qed.

(** [Clean] absorbs an earlier [Clean] of the front of the path. *)
Lemma cleanElements_absorb x b :
  x <> "" ->
  cleanElements (cleanElements x +:+ sep +:+ b) = cleanElements (x +:+ sep +:+ b).
Proof.
  intros Hx.
  set (rooted := isRooted x).
  set (st := foldl (cleanStep rooted) (Elems [] 0) (GoStrings.Split x Separator)).
  assert (wf rooted st) as Hwf.
  { apply foldl_cleanStep_wf; [apply Split_pieces_sepFree | apply wf_init]. }
  rewrite (cleanElements_render x Hx). fold rooted st.
  rewrite !cleanElements_render
    by (apply append_nonempty; first [by apply render_nonempty | done]).
  rewrite !isRooted_app by first [by apply render_nonempty | done].
  rewrite isRooted_render by done. fold rooted.
  change (sep +:+ b) with (String Separator b).
  rewrite !Split_app_sep, !foldl_app.
  by rewrite foldl_cleanStep_render.
Qed.

Lemma cleanElements_nonempty path : cleanElements path <> "".
Proof.
  destruct (decide (path = "")) as [->|Hne]; [done|].
  rewrite cleanElements_render by done. apply render_nonempty.
  apply foldl_cleanStep_wf; [apply Split_pieces_sepFree | apply wf_init].
Qed.

End CleanElements.

(** ** The two forms of [Clean] agree *)

Section CleanBytes.
Import Filepath.


Lemma string_of_list_ascii_app l k :
  string_of_list_ascii (l ++ k) = string_of_list_ascii l +:+ string_of_list_ascii k.
Proof. induction l as [|c l IH]; simpl; [done|]. by rewrite IH. Qed.

Lemma concat_snoc l e :
  String.concat sep (l ++ [e])
  = match l with
    | [] => e
    | _ => String.concat sep l +:+ sep +:+ e
    end.
Proof.
  induction l as [|a [|b l] IH]; [done..|].
  change (String.concat sep ((a :: b :: l) ++ [e]))
    with (a +:+ sep +:+ String.concat sep ((b :: l) ++ [e])).
  rewrite IH.
  change (String.concat sep (a :: b :: l))
    with (a +:+ sep +:+ String.concat sep (b :: l)).
  by rewrite !append_assoc.
Qed.

Lemma flat_render rooted stk :
  string_of_list_ascii (reverse (flat rooted stk))
  = (if rooted then sep else "") +:+ String.concat sep (reverse stk).
Proof.
  induction stk as [|e stk IH]; [by destruct rooted|].
  simpl flat. rewrite !reverse_app, reverse_involutive, <- !app_assoc.
  rewrite !string_of_list_ascii_app, IH, string_of_list_ascii_of_string.
  rewrite reverse_cons, concat_snoc, append_assoc.
  destruct stk as [|e' stk]; [done|].
  destruct (reverse (e' :: stk)) eqn:Hrev.
  { apply (f_equal length) in Hrev. by rewrite length_reverse in Hrev. }
  done.
Qed.

Lemma flat_length_cons rooted e stk :
  e <> "" -> length (flat rooted stk) < length (flat rooted (e :: stk)).
Proof.
  intros He. simpl. rewrite !length_app, length_reverse.
  destruct e; [done|]. simpl. lia.
Qed.

Lemma flat_length_app rooted l1 l2 :
  Forall (fun e => e <> "") l1 ->
  length (flat rooted l2) + length l1 <= length (flat rooted (l1 ++ l2)).
Proof.
  induction 1 as [|e l1 He _ IH]; [simpl; lia|].
  pose proof (flat_length_cons rooted e (l1 ++ l2) He). simpl in *. lia.
Qed.

Lemma wf_nonempty rooted st :
  wf rooted st -> Forall (fun e => e <> "") (stack st).
Proof.
  intros Hwf. eapply Forall_impl; [by apply (wf_stack_sepFree rooted)|].
  by intros e [? _].
Qed.

Lemma mark_wf rooted st :
  wf rooted st ->
  mark rooted st = length (flat rooted (replicate (protected st) "..")).
Proof.
  intros (reals & Hst & _ & _). unfold mark. rewrite Hst.
  rewrite length_app, length_replicate.
  replace (length reals + protected st - protected st) with (length reals) by lia.
  by rewrite drop_app_length.
Qed.

(** [out.w > dotdot] holds exactly when an element can be removed. *)
Lemma mark_lt rooted st :
  wf rooted st ->
  (mark rooted st <? length (flat rooted (stack st)))
  = (protected st <? length (stack st)).
Proof.
  intros Hwf. rewrite mark_wf by done.
  destruct Hwf as (reals & Hst & Hreals & _). rewrite Hst.
  rewrite length_app, length_replicate.
  destruct reals as [|r reals]; simpl app.
  - rewrite Nat.ltb_irrefl. simpl. by rewrite Nat.ltb_irrefl.
  - assert (Forall (fun e => e <> "") (r :: reals)) as Hne.
    { eapply Forall_impl; [exact Hreals|]. by intros e [? _]. }
    pose proof (flat_length_app rooted (r :: reals) (replicate (protected st) "..") Hne) as Hle.
    simpl length in *.
    destruct (Nat.ltb_spec (protected st) (S (length reals) + protected st)); [|lia].
    apply Nat.ltb_lt. simpl in *. lia.
Qed.

Lemma unwind_bytes dd l removed tl :
  Forall (fun c => c <> Separator) l -> removed <> Separator ->
  dd <= length tl ->
  exists r, r <> Separator /\ unwind dd removed (l ++ tl) = unwind dd r tl.
Proof.
  intros Hl. revert removed.
  induction Hl as [|c l Hc _ IH]; intros removed Hr Hdd; [by exists removed|].
  simpl. rewrite length_app.
  destruct (Nat.ltb_spec dd (S (length l + length tl))); [|lia].
  unfold IsPathSeparator. rewrite bool_decide_eq_false_2 by done. simpl.
  by apply IH.
Qed.

Lemma sepFree_bytes e :
  sepFree Separator e -> Forall (fun c => c <> Separator) (list_ascii_of_string e).
Proof.
  induction e as [|c e IH]; simpl; [constructor|].
  intros [Hc He]. constructor; auto.
Qed.

Lemma unwind_sep dd r out :
  r <> Separator -> dd <= length out ->
  unwind dd r (Separator :: out) = out.
Proof.
  intros Hr Hdd. simpl unwind.
  assert ((dd <? S (length out)) = true) as -> by (apply Nat.ltb_lt; lia).
  unfold IsPathSeparator at 1. rewrite bool_decide_eq_false_2 by done.
  simpl. destruct out as [|o out']; [done|].
  simpl. by rewrite ?andb_false_r.
Qed.

(** The [..] case removes the last element from the buffer. *)
Lemma backtrack_flat rooted st e stk :
  wf rooted st -> stack st = e :: stk ->
  protected st < length (stack st) ->
  backtrack (mark rooted st) (flat rooted (e :: stk)) = flat rooted stk.
Proof.
  intros Hwf Hstk Hlt.
  pose proof (mark_wf _ _ Hwf) as Hmark.
  destruct Hwf as (reals & Hst & Hreals & Hroot).
  destruct reals as [|r reals].
  { simpl in Hst. rewrite Hst, length_replicate in Hlt. lia. }
  rewrite Hstk in Hst. simplify_eq/=.
  inversion Hreals as [|? ? (Hne & _ & _ & Hfree) Hreals']; subst.
  set (tl := glue (reals ++ replicate (protected st) "..")
             ++ flat rooted (reals ++ replicate (protected st) "..")).
  assert (mark rooted st <= length (flat rooted (reals ++ replicate (protected st) "..")))
    as Hle.
  { rewrite Hmark. etrans; [|apply flat_length_app]; [lia|].
    eapply Forall_impl; [exact Hreals'|]. by intros ? [? _]. }
  assert (mark rooted st <= length tl) as Hle'.
  { unfold tl. rewrite length_app. lia. }
  pose proof (sepFree_bytes _ Hfree) as Hbytes.
  apply Forall_reverse in Hbytes.
  destruct (reverse (list_ascii_of_string r)) as [|c l] eqn:Hrev.
  { apply (f_equal length) in Hrev. rewrite length_reverse in Hrev.
    destruct r; [done|]. simpl in Hrev. lia. }
  inversion Hbytes as [|? ? Hc Hl]; subst. simpl backtrack.
  destruct (unwind_bytes (mark rooted st) l c tl Hl Hc Hle') as (c' & Hc' & ->).
  unfold tl.
  destruct (reals ++ replicate (protected st) "..") as [|e' stk'] eqn:Hstk'.
  - apply app_eq_nil in Hstk' as [_ Hrep].
    destruct (protected st); [|done]. rewrite Hmark.
    by destruct rooted.
  - by apply unwind_sep.
Qed.

Lemma Split_cut p :
  GoStrings.Split p Separator
  = fst (GoStrings.cut Separator p) :: snd (GoStrings.cut Separator p).
Proof. unfold GoStrings.Split. by destruct (GoStrings.cut Separator p). Qed.

Lemma cut_cons_other c p :
  c <> Separator ->
  GoStrings.cut Separator (String c p)
  = (String c (fst (GoStrings.cut Separator p)), snd (GoStrings.cut Separator p)).
Proof.
  intros Hc. simpl. destruct (GoStrings.cut Separator p).
  by rewrite decide_False.
Qed.

Lemma atEnd_cut p : atEnd p = true <-> fst (GoStrings.cut Separator p) = "".
Proof.
  destruct p as [|c p]; [done|]. simpl.
  destruct (GoStrings.cut Separator p) as [x xs].
  unfold IsPathSeparator. destruct (decide (c = Separator)) as [Hc|Hc].
  - by rewrite bool_decide_eq_true_2.
  - by rewrite bool_decide_eq_false_2.
Qed.

Lemma foldl_atEnd rooted st p :
  atEnd p = true ->
  foldl (cleanStep rooted) st (GoStrings.Split p Separator)
  = foldl (cleanStep rooted) st (snd (GoStrings.cut Separator p)).
Proof.
  intros Hp. apply atEnd_cut in Hp. by rewrite Split_cut, Hp.
Qed.

(** The copy loop writes the next element and stops behind it. *)
Lemma copyElem_cut p out :
  snd (copyElem p out)
  = reverse (list_ascii_of_string (fst (GoStrings.cut Separator p))) ++ out
  /\ atEnd (fst (copyElem p out)) = true
  /\ snd (GoStrings.cut Separator (fst (copyElem p out)))
     = snd (GoStrings.cut Separator p)
  /\ String.length (fst (copyElem p out)) <= String.length p.
Proof.
  revert out. induction p as [|c p IH]; intros out; [done|].
  simpl copyElem. unfold IsPathSeparator.
  destruct (decide (c = Separator)) as [Hc|Hc].
  - rewrite bool_decide_eq_true_2 by done. subst c. simpl.
    by destruct (GoStrings.cut Separator p).
  - rewrite bool_decide_eq_false_2 by done.
    destruct (IH (c :: out)) as (H1 & H2 & H3 & H4).
    rewrite cut_cons_other by done. simpl fst. simpl snd.
    rewrite H1, H3. simpl list_ascii_of_string.
    rewrite reverse_cons, <- app_assoc. repeat split; [done|]. simpl. lia.
Qed.

Lemma flat_length_base rooted stk :
  Forall (fun e => e <> "") stk ->
  length (base rooted) + length stk <= length (flat rooted stk).
Proof.
  intros Hall. pose proof (flat_length_app rooted stk [] Hall) as Hle.
  by rewrite app_nil_r in Hle.
Qed.

(** The separator that the default case writes before an element. *)
Lemma glue_flat rooted stk :
  Forall (fun e => e <> "") stk ->
  (if rooted && negb (length (flat rooted stk) =? 1)
      || negb rooted && negb (length (flat rooted stk) =? 0)
   then Separator :: flat rooted stk else flat rooted stk)
  = glue stk ++ flat rooted stk.
Proof.
  intros Hall. pose proof (flat_length_base rooted stk Hall) as Hle.
  destruct stk as [|e stk]; [by destruct rooted|].
  simpl glue. remember (flat rooted (e :: stk)) as out eqn:Hout.
  clear Hout. destruct rooted; simpl in *.
  - destruct (Nat.eqb_spec (length out) 1); [lia|done].
  - destruct (Nat.eqb_spec (length out) 0); [lia|done].
Qed.

Lemma glue_flat_dotdot stk :
  Forall (fun e => e <> "") stk ->
  (if 0 <? length (flat false stk) then Separator :: flat false stk else flat false stk)
  = glue stk ++ flat false stk.
Proof.
  intros Hall. pose proof (flat_length_base false stk Hall) as Hle.
  destruct stk as [|e stk]; [done|].
  simpl glue. remember (flat false (e :: stk)) as out eqn:Hout.
  clear Hout. simpl in *.
  destruct (Nat.ltb_spec 0 (length out)); [done|lia].
Qed.

Lemma cleanStep_dotdot rooted st :
  cleanStep rooted st ".."
  = if protected st <? length (stack st) then Elems (tail (stack st)) (protected st)
    else if negb rooted then Elems (".." :: stack st) (S (length (stack st)))
    else st.
Proof. reflexivity. Qed.

Lemma cut_head c x p :
  fst (GoStrings.cut Separator p) = String c x ->
  exists p', p = String c p' /\ fst (GoStrings.cut Separator p') = x.
Proof.
  destruct p as [|d p]; [done|]. simpl.
  destruct (GoStrings.cut Separator p) as [y ys] eqn:Hcut.
  destruct (decide (d = Separator)); [done|]. simpl.
  intros [= -> ->]. exists p. by rewrite Hcut.
Qed.

(** The element that the default case copies is a real one. *)
Lemma default_real c p1 :
  IsPathSeparator c = false ->
  bool_decide (c = "."%char) && atEnd p1 = false ->
  bool_decide (c = "."%char) && bool_decide (next p1 = Some "."%char)
    && atEnd (rest p1) = false ->
  real (String c (fst (GoStrings.cut Separator p1))).
Proof.
  intros Hsep Hdot Hdotdot. apply bool_decide_eq_false in Hsep.
  repeat split; try done.
  - intros [= -> Hx]. apply atEnd_cut in Hx.
    by rewrite Hx in Hdot.
  - intros [= -> Hx]. apply cut_head in Hx as (p2 & -> & Hx).
    apply atEnd_cut in Hx. simpl in Hdotdot. by rewrite Hx in Hdotdot.
  - by apply cut_pieces_sepFree.
Qed.

Lemma mark_same rooted st st' :
  wf rooted st -> wf rooted st' -> protected st' = protected st ->
  mark rooted st' = mark rooted st.
Proof. intros Hwf Hwf' Hk. by rewrite !mark_wf, Hk. Qed.

(** The loop over the bytes computes the fold over the elements. *)
Lemma cleanLoop_elements rooted fuel p st :
  String.length p <= fuel -> wf rooted st ->
  cleanLoop fuel rooted p (flat rooted (stack st)) (mark rooted st)
  = flat rooted (stack (foldl (cleanStep rooted) st (GoStrings.Split p Separator))).
Proof.
  revert p st. induction fuel as [|fuel IH]; intros p st Hlen Hwf.
  { destruct p; [done | simpl in Hlen; lia]. }
  destruct p as [|c p1]; [done|]. simpl in Hlen.
  cbn [cleanLoop].
  destruct (IsPathSeparator c) eqn:Hsep.
  { apply bool_decide_eq_true in Hsep. subst c.
    rewrite Split_cons_sep. cbn [foldl].
    change (cleanStep rooted st "") with st. apply IH; [lia|done]. }
  pose proof Hsep as Hc. apply bool_decide_eq_false in Hc.
  rewrite Split_cut, cut_cons_other by done. cbn [fst snd foldl].
  destruct (bool_decide (c = "."%char) && atEnd p1) eqn:Hdot.
  { apply andb_true_iff in Hdot as [Hd Hend].
    apply bool_decide_eq_true in Hd. subst c.
    pose proof Hend as Hx. apply atEnd_cut in Hx. rewrite Hx.
    change (cleanStep rooted st ".") with st.
    rewrite <- foldl_atEnd by done. apply IH; [lia|done]. }
  destruct (bool_decide (c = "."%char) && bool_decide (next p1 = Some "."%char)
            && atEnd (rest p1)) eqn:Hdotdot.
  { apply andb_true_iff in Hdotdot as [Hd Hend].
    apply andb_true_iff in Hd as [Hd Hnext].
    apply bool_decide_eq_true in Hd. apply bool_decide_eq_true in Hnext.
    subst c. destruct p1 as [|c p2]; [done|]. simpl in Hnext, Hend, Hlen.
    injection Hnext as ->. cbn [rest].
    rewrite cut_cons_other by done. cbn [fst snd].
    pose proof Hend as Hx. apply atEnd_cut in Hx. rewrite Hx.
    assert (wf rooted (cleanStep rooted st "..")) as Hwf'.
    { apply cleanStep_wf; [|done]. simpl. by repeat split. }
    rewrite <- foldl_atEnd by done.
    rewrite cleanStep_dotdot in *. rewrite mark_lt by done.
    destruct (protected st <? length (stack st)) eqn:Hlt.
    - apply Nat.ltb_lt in Hlt.
      destruct (stack st) as [|e stk] eqn:Hstk; [simpl in Hlt; lia|].
      rewrite (backtrack_flat rooted st e stk) by (done || by rewrite Hstk).
      rewrite <- (mark_same rooted st (Elems stk (protected st))) by done.
      apply (IH p2 (Elems stk (protected st))); [lia|done].
    - destruct rooted; cbn [negb] in *.
      + apply IH; [lia|done].
      + rewrite glue_flat_dotdot by by apply (wf_nonempty false).
        set (st' := Elems (".." :: stack st) (S (length (stack st)))) in *.
        change ("."%char :: "."%char :: glue (stack st) ++ flat false (stack st))
          with (flat false (stack st')).
        assert (length (flat false (stack st')) = mark false st') as ->.
        { unfold mark. simpl. by rewrite Nat.sub_diag. }
        apply IH; [lia|done]. }
  pose proof (default_real c p1 Hsep Hdot Hdotdot) as Hreal.
  set (e := String c (fst (GoStrings.cut Separator p1))) in *.
  rewrite cleanStep_real by done.
  set (st' := Elems (e :: stack st) (protected st)).
  assert (wf rooted st') as Hwf'.
  { unfold st'. rewrite <- (cleanStep_real rooted st e) by done.
    apply cleanStep_wf; [|done]. apply Hreal. }
  rewrite glue_flat by by apply (wf_nonempty rooted).
  cbn [copyElem]. rewrite Hsep.
  destruct (copyElem_cut p1 (c :: glue (stack st) ++ flat rooted (stack st)))
    as (Hout & Hend & Hcut & Hlen').
  destruct (copyElem p1 (c :: glue (stack st) ++ flat rooted (stack st)))
    as [p' out2]. simpl in Hout, Hend, Hcut, Hlen'.
  assert (out2 = flat rooted (stack st')) as ->.
  { rewrite Hout. unfold st', e. simpl.
    by rewrite reverse_cons, <- app_assoc. }
  rewrite <- (mark_same rooted st st') by done.
  rewrite <- Hcut, <- foldl_atEnd by done.
  apply IH; [lia|done].
Qed.

(** [Clean] computes what [cleanElements] describes. *)
Lemma Clean_elements path : Clean path = cleanElements path.
Proof.
  destruct path as [|c p1]; [done|].
  rewrite cleanElements_render by done.
  unfold Clean. cbn [isRooted].
  destruct (IsPathSeparator c) eqn:Hsep.
  - apply bool_decide_eq_true in Hsep. subst c.
    pose proof (cleanLoop_elements true (String.length p1) p1 (Elems [] 0)
                  (le_n _) (wf_init true)) as Hloop.
    change (flat true (stack (Elems [] 0))) with [Separator] in Hloop.
    change (mark true (Elems [] 0)) with 1 in Hloop.
    rewrite Hloop, Split_cons_sep. cbn [foldl].
    change (cleanStep true (Elems [] 0) "") with (Elems [] 0).
    set (st := foldl (cleanStep true) (Elems [] 0) (GoStrings.Split p1 Separator)).
    assert (wf true st) as Hwf.
    { apply foldl_cleanStep_wf; [apply Split_pieces_sepFree | apply wf_init]. }
    pose proof (flat_length_base true (stack st) (wf_nonempty _ _ Hwf)) as Hle.
    destruct (flat true (stack st)) eqn:Hflat; [simpl in Hle; lia|].
    rewrite <- Hflat, flat_render. done.
  - pose proof (cleanLoop_elements false (String.length (String c p1)) (String c p1)
                  (Elems [] 0) (le_n _) (wf_init false)) as Hloop.
    change (flat false (stack (Elems [] 0))) with (@nil ascii) in Hloop.
    change (mark false (Elems [] 0)) with 0 in Hloop.
    rewrite Hloop.
    set (st := foldl (cleanStep false) (Elems [] 0)
                 (GoStrings.Split (String c p1) Separator)).
    assert (wf false st) as Hwf.
    { apply foldl_cleanStep_wf; [apply Split_pieces_sepFree | apply wf_init]. }
    pose proof (flat_length_base false (stack st) (wf_nonempty _ _ Hwf)) as Hle.
    unfold render. destruct (stack st) as [|e stk] eqn:Hstk; [done|].
    destruct (flat false (e :: stk)) eqn:Hflat; [simpl in Hle; lia|].
    rewrite <- Hflat, flat_render. done.
Qed.

End CleanBytes.

(** ** Facts on [filepath.Join] *)

Section JoinFacts.
Import Filepath.

Lemma Clean_nonempty path : Clean path <> "".
Proof. rewrite Clean_elements. apply cleanElements_nonempty. Qed.

Lemma Clean_absorb x b :
  x <> "" -> Clean (Clean x +:+ sep +:+ b) = Clean (x +:+ sep +:+ b).
Proof. intros Hx. rewrite !Clean_elements. by apply cleanElements_absorb. Qed.

Lemma Join_cons_empty elem : Join ("" :: elem) = Join elem.
Proof. done. Qed.

Lemma Join_cons_nonempty e elem :
  e <> "" -> Join (e :: elem) = Clean (GoStrings.Join (e :: elem) sep).
Proof. intros He. simpl. by rewrite decide_False. Qed.

Lemma Join_nonempty e elem : e <> "" -> Join (e :: elem) <> "".
Proof. intros He. rewrite Join_cons_nonempty by done. apply Clean_nonempty. Qed.

(** Joining onto a joined path is joining everything at once. *)
Lemma Join_Join p a b : Join [Join [p; a]; b] = Join [p; a; b].
Proof.
  destruct (decide (p = "")) as [->|Hp].
  - rewrite !Join_cons_empty.
    destruct (decide (a = "")) as [->|Ha]; [done|].
    rewrite (Join_cons_nonempty a [b]) by done.
    rewrite (Join_cons_nonempty a []) by done.
    rewrite Join_cons_nonempty by apply Clean_nonempty.
    unfold GoStrings.Join. cbn [String.concat].
    by apply Clean_absorb.
  - rewrite (Join_cons_nonempty p [a; b]) by done.
    rewrite (Join_cons_nonempty p [a]) by done.
    rewrite Join_cons_nonempty by apply Clean_nonempty.
    unfold GoStrings.Join. cbn [String.concat].
    rewrite Clean_absorb by by apply append_nonempty.
    by rewrite !append_assoc.
Qed.

End JoinFacts.

(** ** Facts on the package *)

(** The loop of [getDirs] maps [filepath.Join] over the paths. *)
Lemma joinEach_middle name pre todo :
  foldl (fun paths i =>
           match paths !! i with
           | Some x => <[i := Filepath.Join [x; name]]> paths
           | None => paths
           end)
        (pre ++ todo) (seq (length pre) (length todo))
  = pre ++ map (fun x => Filepath.Join [x; name]) todo.
Proof.
  revert pre. induction todo as [|x todo IH]; intros pre; [done|].
  cbn [length seq foldl map].
  rewrite list_lookup_middle by done.
  replace (length pre) with (length pre + 0) at 1 by lia.
  rewrite insert_app_r. cbn [insert list_insert].
  rewrite cons_middle, app_assoc.
  replace (S (length pre)) with (length (pre ++ [Filepath.Join [x; name]]))
    by (rewrite length_app; simpl; lia).
  by rewrite IH, <- app_assoc.
Qed.

Lemma joinEach_map name paths :
  joinEach name paths = map (fun x => Filepath.Join [x; name]) paths.
Proof. apply (joinEach_middle name [] paths). Qed.

Lemma LookupEnv_Some (env : gmap string string) key v :
  env !! key = Some v -> Os.LookupEnv env key = (v, true).
Proof. intros H. unfold Os.LookupEnv. by rewrite H. Qed.

Lemma LookupEnv_None (env : gmap string string) key :
  env !! key = None -> Os.LookupEnv env key = ("", false).
Proof. intros H. unfold Os.LookupEnv. by rewrite H. Qed.

Lemma resolve_getDir {F} `{DirFinder F} env (xdg : XDG F) r :
  resolve env xdg r = getDir env xdg (singleKey r).
Proof. by destruct r as [[]|]. Qed.

Lemma resolveDirs_getDirs {F} `{DirFinder F} env (xdg : XDG F) r :
  resolveDirs env xdg r = getDirs env xdg (searchKey r).
Proof. by destruct r. Qed.

Lemma defaultVal_home {F} `{DirFinder F} (xdg : XDG F) home r :
  defaultVal xdg home (homeKey r)
  = Filepath.Join [Filepath.Join [home; defaultBase r]; Name (finder xdg)].
Proof. by destruct r. Qed.

(** ** The properties of the package *)


(** C1: when the variable of a single-path role is set to [V], be it
    empty, the role resolves to [filepath.Join(V, name)] and nothing
    else of the environment matters. *)
Theorem resolve_env_set {F} `{DirFinder F} (env : gmap string string) (xdg : XDG F)
    (r : SingleRole) (V : string) :
  env !! singleKey r = Some V ->
  resolve env xdg r = Filepath.Join [V; Name (finder xdg)].
Proof.
  intros Hset. rewrite resolve_getDir. unfold getDir.
  by rewrite (LookupEnv_Some _ _ _ Hset).
Qed.

Lemma resolve_env_set_witness :
  ({[ "XDG_RUNTIME_DIR" := "" ]} : gmap string string) !! singleKey RuntimeDir = Some ""
  /\ resolve {[ "XDG_RUNTIME_DIR" := "" ]} (newXdg "app") RuntimeDir
     = Filepath.Join [""; "app"].
Proof.
  split; [reflexivity|].
  exact (resolve_env_set {[ "XDG_RUNTIME_DIR" := "" ]} (newXdg "app") RuntimeDir ""
           eq_refl).
Defined.

(** C2: when the variable of a home-based role is not set and the home
    directory is [H], the role resolves to
    [filepath.Join(H, defaultBase, name)]. *)
Theorem resolve_home_default {F} `{DirFinder F} (env : gmap string string) (xdg : XDG F)
    (r : HomeRole) (H' : string) :
  env !! homeKey r = None ->
  Os.UserHomeDir env = (H', Os.nil) ->
  resolve env xdg (Home r) = Filepath.Join [H'; defaultBase r; Name (finder xdg)].
Proof.
  intros Hunset Hhome. rewrite resolve_getDir. unfold getDir. cbn [singleKey].
  rewrite (LookupEnv_None _ _ Hunset), Hhome.
  rewrite decide_False by by destruct r.
  rewrite defaultVal_home, Join_Join.
  assert (H' <> "") as Hne.
  { unfold Os.UserHomeDir in Hhome.
    destruct (decide (Os.Getenv env "HOME" = "")); [done|]. congruence. }
  pose proof (Join_nonempty H' [defaultBase r; Name (finder xdg)] Hne) as Hdef.
  destruct (Filepath.Join [H'; defaultBase r; Name (finder xdg)]); done.
Qed.

Lemma resolve_home_default_witness :
  testEnv !! homeKey DataHome = None
  /\ Os.UserHomeDir testEnv = ("/home/t", Os.nil)
  /\ resolve testEnv (newXdg "go-xdg-test") (Home DataHome)
     = Filepath.Join ["/home/t"; ".local/share"; "go-xdg-test"].
Proof.
  split; [reflexivity|]. split; [reflexivity|].
  exact (resolve_home_default testEnv (newXdg "go-xdg-test") DataHome "/home/t"
           eq_refl eq_refl).
Defined.

(** C3: a role whose variable is not set resolves to the empty string
    when it is the runtime directory, whatever the home directory is,
    and when it is home-based and the home directory is not found. *)
Theorem resolve_unresolvable {F} `{DirFinder F} (env : gmap string string) (xdg : XDG F)
    (r : SingleRole) :
  env !! singleKey r = None ->
  r = RuntimeDir \/ snd (Os.UserHomeDir env) <> Os.nil ->
  resolve env xdg r = "".
Proof.
  intros Hunset Hcase. rewrite resolve_getDir. unfold getDir.
  rewrite (LookupEnv_None _ _ Hunset).
  destruct (decide (singleKey r = runtimeDirKey)) as [|Hkey]; [done|].
  destruct Hcase as [->|Herr]; [done|].
  destruct (Os.UserHomeDir env) as [home []]; done.
Qed.

Lemma resolve_unresolvable_witness :
  (testEnv !! singleKey RuntimeDir = None
   /\ resolve testEnv (newXdg "go-xdg-test") RuntimeDir = "")
  /\ ((∅ : gmap string string) !! singleKey (Home ConfigHome) = None
      /\ snd (Os.UserHomeDir ∅) <> Os.nil
      /\ resolve ∅ (newXdg "go-xdg-test") (Home ConfigHome) = "").
Proof.
  split.
  - split; [reflexivity|].
    exact (resolve_unresolvable testEnv (newXdg "go-xdg-test") RuntimeDir
             eq_refl (or_introl eq_refl)).
  - split; [reflexivity|]. split; [discriminate|].
    apply (resolve_unresolvable ∅ (newXdg "go-xdg-test") (Home ConfigHome));
      [reflexivity | right; discriminate].
Defined.

(** C4: when the variable of a search-path role is set to [V], the role
    resolves to no path at all if [V] is empty and otherwise to the
    pieces of [V] between the colons, in their order, each joined with
    the name; so ["A:B"] gives the two paths of [A] and of [B]. *)
Theorem resolveDirs_env_set {F} `{DirFinder F} (env : gmap string string) (xdg : XDG F)
    (r : SearchRole) (V : string) :
  env !! searchKey r = Some V ->
  (V = "" -> resolveDirs env xdg r = [])
  /\ (V <> "" ->
      resolveDirs env xdg r
      = map (fun e => Filepath.Join [e; Name (finder xdg)])
            (GoStrings.Split V Filepath.ListSeparator))
  /\ (forall A B,
        sepFree Filepath.ListSeparator A -> sepFree Filepath.ListSeparator B ->
        V = A +:+ ":" +:+ B ->
        resolveDirs env xdg r
        = [Filepath.Join [A; Name (finder xdg)]; Filepath.Join [B; Name (finder xdg)]]).
Proof.
  intros Hset. rewrite resolveDirs_getDirs. unfold getDirs.
  rewrite (LookupEnv_Some _ _ _ Hset), joinEach_map.
  assert (V <> "" ->
          (if 0 <? String.length V
           then map (fun e => Filepath.Join [e; Name (finder xdg)]) (Filepath.SplitList V)
           else [])
          = map (fun e => Filepath.Join [e; Name (finder xdg)])
                (GoStrings.Split V Filepath.ListSeparator)) as Hsplit.
  { intros Hne. unfold Filepath.SplitList. rewrite decide_False by done.
    by destruct V. }
  split; [by intros ->|]. split; [done|].
  intros A B HA HB ->. rewrite Hsplit by by destruct A.
  change (":" +:+ B) with (String Filepath.ListSeparator B).
  by rewrite Split_app_sep, !Split_sepFree.
Qed.

Lemma resolveDirs_env_set_witness :
  (<[dataDirsKey := "/h/t/.local/share/datas:/xdg-data"]> testEnv) !! searchKey DataDirsRole
  = Some "/h/t/.local/share/datas:/xdg-data"
  /\ resolveDirs (<[dataDirsKey := "/h/t/.local/share/datas:/xdg-data"]> testEnv)
       (newXdg "go-xdg-test") DataDirsRole
     = [Filepath.Join ["/h/t/.local/share/datas"; "go-xdg-test"];
        Filepath.Join ["/xdg-data"; "go-xdg-test"]].
Proof.
  split; [reflexivity|].
  exact (proj1 (proj2 (resolveDirs_env_set
                         (<[dataDirsKey := "/h/t/.local/share/datas:/xdg-data"]> testEnv)
                         (newXdg "go-xdg-test") DataDirsRole
                         "/h/t/.local/share/datas:/xdg-data" eq_refl))
           ltac:(discriminate)).
Defined.

(** C5: when the variable of a search-path role is not set, the role
    resolves to its default list, in its order, each entry joined with
    the name; for the name [go-xdg-test] these are [/etc/xdg/go-xdg-test]
    and [/usr/local/share/go-xdg-test], [/usr/share/go-xdg-test]. *)
Theorem resolveDirs_default {F} `{DirFinder F} (env : gmap string string) (xdg : XDG F)
    (r : SearchRole) :
  env !! searchKey r = None ->
  resolveDirs env xdg r
  = map (fun e => Filepath.Join [e; Name (finder xdg)]) (defaultList r)
  /\ match r with
     | ConfigDirsRole => ConfigDirs env "go-xdg-test" = ["/etc/xdg/go-xdg-test"]
     | DataDirsRole =>
         DataDirs env "go-xdg-test"
         = ["/usr/local/share/go-xdg-test"; "/usr/share/go-xdg-test"]
     end.
Proof.
  intros Hunset.
  assert (forall G (HG : DirFinder G) (x : XDG G),
            resolveDirs env x r
            = map (fun e => Filepath.Join [e; Name (finder x)]) (defaultList r)) as Hall.
  { intros G HG x. rewrite resolveDirs_getDirs. unfold getDirs.
    rewrite (LookupEnv_None _ _ Hunset), joinEach_map. by destruct r. }
  split; [apply Hall|].
  destruct r.
  - unfold ConfigDirs. change (XDG_ConfigDirs env (newXdg "go-xdg-test"))
      with (resolveDirs env (newXdg "go-xdg-test") ConfigDirsRole).
    by rewrite Hall.
  - unfold DataDirs. change (XDG_DataDirs env (newXdg "go-xdg-test"))
      with (resolveDirs env (newXdg "go-xdg-test") DataDirsRole).
    by rewrite Hall.
Qed.

Lemma resolveDirs_default_witness :
  testEnv !! searchKey DataDirsRole = None
  /\ resolveDirs testEnv (newXdg "app") DataDirsRole
     = ["/usr/local/share/app"; "/usr/share/app"]
  /\ DataDirs testEnv "go-xdg-test"
     = ["/usr/local/share/go-xdg-test"; "/usr/share/go-xdg-test"].
Proof.
  split; [reflexivity|].
  exact (resolveDirs_default testEnv (newXdg "app") DataDirsRole eq_refl).
Defined.

(** *** [Dir.Split] *)

Lemma index_last {A} (p : list A) : p <> [] -> index p (len p - 1) = last p.
Proof.
  intros Hp. unfold index, len. destruct p as [|x p]; [done|].
  rewrite bool_decide_eq_true_2 by (simpl length; lia).
  rewrite last_lookup. f_equal. simpl length. lia.
Qed.

Lemma slice_init {A} (p : list A) :
  p <> [] -> slice p 0 (len p - 1) = Some (take (length p - 1) p).
Proof.
  intros Hp. unfold slice, len. destruct p as [|x p]; [done|].
  rewrite bool_decide_eq_true_2 by (simpl length; lia).
  simpl drop. do 2 f_equal. simpl length. lia.
Qed.

Lemma slice_tail {A} (x : A) (p : list A) : slice (x :: p) 1 (len (x :: p)) = Some p.
Proof.
  unfold slice, len. rewrite bool_decide_eq_true_2 by (simpl length; lia).
  replace (Z.to_nat (Z.of_nat (length (x :: p)) - 1)) with (length p)
    by (simpl length; lia).
  simpl. by rewrite firstn_all.
Qed.

Lemma cut_empty c0 d : GoStrings.cut c0 d = ("", []) -> d = "".
Proof.
  destruct d as [|c d]; [done|]. simpl.
  destruct (GoStrings.cut c0 d). by destruct (decide (c = c0)).
Qed.

Lemma Dir_Split_segments (d : Dir) :
  Dir_Split d = if decide (d = "") then None else Some (splitSegments d).
Proof.
  unfold Dir_Split, splitSegments, GoStrings.Split.
  destruct (GoStrings.cut Filepath.Separator d) as [x xs] eqn:Hcut.
  rewrite bool_decide_eq_true_2 by (unfold len; simpl length; lia).
  change (index (x :: xs) 0) with (Some x). cbn [mbind option_bind].
  destruct x as [|c x].
  - cbn [String.length dropLeadingEmpty]. rewrite bool_decide_eq_true_2 by done.
    rewrite slice_tail. cbn [mbind option_bind].
    destruct xs as [|y ys].
    + apply cut_empty in Hcut. subst d. done.
    + rewrite decide_False by (intros ->; done).
      rewrite index_last by done. unfold dropTrailingEmpty.
      destruct (last (y :: ys)) as [pl|] eqn:Hlast; cbn [mbind option_bind].
      * destruct pl as [|c pl]; cbn [String.length].
        -- rewrite bool_decide_eq_true_2 by done. by apply slice_init.
        -- by rewrite bool_decide_eq_false_2.
      * by apply last_None in Hlast.
  - cbn [String.length dropLeadingEmpty]. rewrite bool_decide_eq_false_2 by done.
    cbn [mbind option_bind].
    rewrite decide_False by (intros ->; done).
    rewrite index_last by done. unfold dropTrailingEmpty.
    destruct (last (String c x :: xs)) as [pl|] eqn:Hlast; cbn [mbind option_bind].
    + destruct pl as [|c' pl]; cbn [String.length].
      * rewrite bool_decide_eq_true_2 by done. by apply slice_init.
      * by rewrite bool_decide_eq_false_2.
    + by apply last_None in Hlast.
Qed.

(** C6: on every path but the empty one [Split] returns the pieces of
    the path between the separators without one leading and one
    trailing empty piece, the empty pieces inside kept; on the empty
    path, where these pieces are none, it panics instead. *)
Theorem Dir_Split_textual :
  (forall d : Dir,
     Dir_Split d = if decide (d = "") then None else Some (splitSegments d))
  /\ Dir_Split "/tmp/me/.local/share/run/" = Some ["tmp"; "me"; ".local"; "share"; "run"]
  /\ Dir_Split "a//b" = Some ["a"; ""; "b"]
  /\ splitSegments "" = []
  /\ Dir_Split "" = None.
Proof. split; [apply Dir_Split_segments | by repeat split]. Qed.

(** C7: [Split] indexes out of range on the empty path, and on no
    other: the leading empty segment is removed and the check of the
    last segment then reads [p[-1]]. *)
Theorem Dir_Split_empty_panics :
  Dir_Split "" = None
  /\ slice (GoStrings.Split "" Filepath.Separator) 1 1 = Some []
  /\ index (@nil string) (len (@nil string) - 1) = None
  /\ forall d : Dir, Dir_Split d = None <-> d = "".
Proof.
  repeat split; try done.
  - intros Hd. rewrite Dir_Split_segments in Hd.
    by destruct (decide (d = "")).
  - by intros ->.
Qed.

(** *** [Dir.Append], [Dir.Exists] and the functions of the package *)

(** C8: [Append] is a function of the path and the segment alone, and
    appending [a] and then [b] to a path [p] gives the path joined from
    [p], [a] and [b] at once: the clean form of [p/a/b], or [a/b] when
    [p] is empty.  The same holds for any two segments. *)
Theorem Dir_Append_Append (p : Dir) :
  Dir_Append (Dir_Append p "a") "b" = Filepath.Join [p; "a"; "b"]
  /\ Filepath.Join [p; "a"; "b"]
     = (if decide (p = "") then "a/b" else Filepath.Clean (p +:+ "/a/b"))
  /\ forall a b : string, Dir_Append (Dir_Append p a) b = Filepath.Join [p; a; b].
Proof.
  split; [apply Join_Join|]. split; [|intros a b; apply Join_Join].
  destruct (decide (p = "")) as [->|Hp]; [done|].
  by rewrite Join_cons_nonempty.
Qed.

(** C9: [Exists] is false exactly when [os.Stat] fails with the error
    "not found"; it is true when [os.Stat] succeeds and when it fails
    with any other error. *)
Theorem Dir_Exists_stat (fs : Os.FileSystem) (d : Dir) :
  Dir_Exists fs d
  = match fs d with
    | inl _ => true
    | inr Os.ENOENT => false
    | inr _ => true
    end
  /\ (Dir_Exists fs d = false <-> Os.IsNotExist (snd (Os.Stat fs d)) = true).
Proof.
  unfold Dir_Exists, exists_, Os.Stat.
  destruct (fs d) as [fi|[]]; simpl; split; try done; by split.
Qed.

(** C10: each function of the package returns what the method of the
    same role returns on a resolver made for the name. *)
Theorem package_functions (env : gmap string string) (name : string) :
  Config env name = XDG_Config env (NewXDG (NewDirFinder name))
  /\ Cache env name = XDG_Cache env (NewXDG (NewDirFinder name))
  /\ Data env name = XDG_Data env (NewXDG (NewDirFinder name))
  /\ State env name = XDG_State env (NewXDG (NewDirFinder name))
  /\ Runtime env name = XDG_Runtime env (NewXDG (NewDirFinder name))
  /\ ConfigDirs env name = XDG_ConfigDirs env (NewXDG (NewDirFinder name))
  /\ DataDirs env name = XDG_DataDirs env (NewXDG (NewDirFinder name)).
Proof. by repeat split. Qed.

(** ** Further properties: cleaned paths *)

Section CleanState.
Import Filepath.

Lemma cleanState_wf p : wf (isRooted p) (cleanState p).
Proof. apply foldl_cleanStep_wf; [apply Split_pieces_sepFree | apply wf_init]. Qed.

Lemma Clean_render p : p <> "" -> Clean p = render (isRooted p) (cleanState p).
Proof. intros Hp. by rewrite Clean_elements, cleanElements_render. Qed.

Lemma cleanState_render rooted st :
  wf rooted st -> cleanState (render rooted st) = st.
Proof.
  intros Hwf. unfold cleanState. rewrite isRooted_render by done.
  by apply foldl_cleanStep_render.
Qed.

(** Cleaning a clean path changes nothing. *)
Lemma Clean_idem p : Clean (Clean p) = Clean p.
Proof.
  destruct (decide (p = "")) as [->|Hp]; [done|].
  rewrite (Clean_render p Hp).
  pose proof (cleanState_wf p) as Hwf.
  rewrite Clean_render by by apply render_nonempty.
  by rewrite cleanState_render, isRooted_render.
Qed.

Lemma isRooted_Clean p : p <> "" -> isRooted (Clean p) = isRooted p.
Proof.
  intros Hp. rewrite Clean_render by done. apply isRooted_render, cleanState_wf.
Qed.

(** A separator at the end of a path is of no account. *)
Lemma cleanState_sep_end p : p <> "" -> cleanState (p +:+ sep) = cleanState p.
Proof.
  intros Hp. unfold cleanState. rewrite isRooted_app by done.
  change (p +:+ sep) with (p +:+ String Separator "").
  by rewrite Split_app_sep, foldl_app.
Qed.

Lemma Clean_sep_end p : p <> "" -> Clean (p +:+ sep) = Clean p.
Proof.
  intros Hp. rewrite !Clean_render by (done || by apply append_nonempty).
  by rewrite cleanState_sep_end, isRooted_app.
Qed.

(** A joined path is the clean form of some path, if an element is not
    empty. *)
Lemma Join_Clean elem :
  Join elem = "" \/ exists q, q <> "" /\ Join elem = Clean q.
Proof.
  induction elem as [|e elem IH]; [by left|].
  destruct (decide (e = "")) as [->|He]; [done|].
  right. rewrite Join_cons_nonempty by done. eexists. split; [|done].
  unfold GoStrings.Join. destruct elem; [done|].
  cbn [String.concat]. by apply append_nonempty.
Qed.

Lemma Join_fixed elem : Join [Join elem; ""] = Join elem.
Proof.
  destruct (Join_Clean elem) as [->|(q & Hq & ->)]; [done|].
  rewrite Join_cons_nonempty by apply Clean_nonempty.
  unfold GoStrings.Join. cbn [String.concat].
  rewrite Clean_sep_end by apply Clean_nonempty. apply Clean_idem.
Qed.

End CleanState.

(** ** Further properties: [Split] on cleaned paths *)

Section SplitClean.
Import Filepath.

Lemma reverse_nonempty {A} (l : list A) : l <> [] -> reverse l <> [].
Proof.
  intros Hl Hrev. apply (f_equal length) in Hrev.
  rewrite length_reverse in Hrev. by destruct l.
Qed.

Lemma dropLeadingEmpty_keep x l : x <> "" -> dropLeadingEmpty (x :: l) = x :: l.
Proof. by destruct x. Qed.

Lemma dropTrailingEmpty_keep l x :
  last l = Some x -> x <> "" -> dropTrailingEmpty l = l.
Proof. intros Hl Hx. unfold dropTrailingEmpty. rewrite Hl. by destruct x. Qed.

(** The segments of a clean path are its elements. *)
Lemma splitSegments_render rooted st :
  wf rooted st ->
  splitSegments (render rooted st)
  = match stack st with
    | [] => if rooted then [] else ["."]
    | _ => reverse (stack st)
    end.
Proof.
  intros Hwf. pose proof (wf_stack_sepFree _ _ Hwf) as Hall.
  unfold splitSegments, render.
  destruct (stack st) as [|e stk] eqn:Hstk; [by destruct rooted|].
  assert (GoStrings.Split (String.concat sep (reverse (e :: stk))) Separator
          = reverse (e :: stk)) as Hsplit.
  { apply Split_concat; [by apply reverse_nonempty|]. apply Forall_reverse.
    eapply Forall_impl; [exact Hall|]. by intros ? [_ ?]. }
  assert (exists y ys, reverse (e :: stk) = y :: ys /\ y <> "") as (y & ys & Hrev & Hy).
  { apply Forall_reverse in Hall.
    destruct (reverse (e :: stk)) as [|y ys] eqn:Hrev.
    - by apply reverse_nonempty in Hrev.
    - exists y, ys. split; [done|]. by inversion Hall as [|? ? [? _] _]. }
  assert (last (reverse (e :: stk)) = Some e) as Hlast.
  { by rewrite reverse_cons, last_snoc. }
  assert (e <> "") as He by (by inversion Hall as [|? ? [? _] _]).
  destruct rooted.
  - change (sep +:+ ?t) with (String Separator t).
    rewrite Split_cons_sep, Hsplit. cbn [dropLeadingEmpty].
    by apply (dropTrailingEmpty_keep _ e).
  - rewrite Hsplit, Hrev, dropLeadingEmpty_keep by done. rewrite <- Hrev.
    by apply (dropTrailingEmpty_keep _ e).
Qed.

Lemma Dir_Split_Clean p :
  p <> "" ->
  Dir_Split (Clean p)
  = Some match stack (cleanState p) with
         | [] => if isRooted p then [] else ["."]
         | _ => reverse (stack (cleanState p))
         end.
Proof.
  intros Hp. rewrite Dir_Split_segments, decide_False by apply Clean_nonempty.
  rewrite Clean_render by done. by rewrite splitSegments_render by apply cleanState_wf.
Qed.

Lemma cleanState_nonempty p : Forall (fun e => e <> "") (stack (cleanState p)).
Proof. apply (wf_nonempty (isRooted p)), cleanState_wf. Qed.

(** In a rooted path every element of the stack is a real one. *)
Lemma cleanState_rooted_real p :
  isRooted p = true -> Forall real (stack (cleanState p)).
Proof.
  intros Hroot. destruct (cleanState_wf p) as (reals & Hst & Hreals & Hk).
  rewrite Hroot in Hk. rewrite Hst, (Hk eq_refl). simpl.
  by rewrite app_nil_r.
Qed.

Lemma cleanState_protected_le p :
  protected (cleanState p) <= length (stack (cleanState p)).
Proof.
  destruct (cleanState_wf p) as (reals & Hst & _ & _).
  rewrite Hst, length_app, length_replicate. lia.
Qed.

(** The state behind a further, real element. *)
Lemma cleanState_app_real d x :
  d <> "" -> real x ->
  cleanState (d +:+ sep +:+ x)
  = Elems (x :: stack (cleanState d)) (protected (cleanState d)).
Proof.
  intros Hd Hx. unfold cleanState. rewrite isRooted_app by done.
  change (sep +:+ x) with (String Separator x).
  rewrite Split_app_sep, foldl_app.
  rewrite (Split_sepFree _ x) by apply Hx. cbn [foldl].
  by rewrite cleanStep_real.
Qed.

Lemma cleanState_real x : real x -> cleanState x = Elems [x] 0.
Proof.
  intros Hx. unfold cleanState. rewrite (Split_sepFree _ x) by apply Hx.
  cbn [foldl]. by rewrite cleanStep_real.
Qed.

Lemma real_nonempty x : real x -> x <> "".
Proof. by intros [? _]. Qed.

Lemma real_not_rooted x : real x -> isRooted x = false.
Proof.
  intros (Hne & _ & _ & Hfree). destruct x as [|c x]; [done|].
  simpl in *. unfold IsPathSeparator. apply bool_decide_eq_false. tauto.
Qed.

End SplitClean.

(** ** Further properties of [Dir.Append] and [Dir.Split] *)

Section AppendSplit.
Import Filepath.

Lemma cleanState_app_elem q e :
  q <> "" -> sepFree Separator e ->
  cleanState (q +:+ sep +:+ e) = cleanStep (isRooted q) (cleanState q) e.
Proof.
  intros Hq He. unfold cleanState. rewrite isRooted_app by done.
  change (sep +:+ e) with (String Separator e).
  by rewrite Split_app_sep, foldl_app, (Split_sepFree _ e).
Qed.

Lemma Dir_Append_nonempty d name :
  d <> "" -> Dir_Append d name = Clean (d +:+ sep +:+ name).
Proof. intros Hd. unfold Dir_Append. by rewrite Join_cons_nonempty. Qed.

Lemma Dir_Append_nothing d : d <> "" -> Dir_Append d "" = Clean d.
Proof.
  intros Hd. rewrite Dir_Append_nonempty by done.
  change (d +:+ sep +:+ "") with (d +:+ sep). by apply Clean_sep_end.
Qed.

Lemma Dir_Append_empty d name : Dir_Append d name = "" <-> d = "" /\ name = "".
Proof.
  split; [|by intros [-> ->]].
  intros Hjoin. destruct (decide (d = "")) as [->|Hd].
  - split; [done|]. destruct (decide (name = "")) as [|Hn]; [done|].
    by apply (Join_nonempty name []) in Hn.
  - by apply (Join_nonempty d [name]) in Hd.
Qed.

(** X1: what [Append] returns is clean: appending nothing to it gives
    it back. *)
Theorem Dir_Append_fixed (d : Dir) (name : string) :
  Dir_Append (Dir_Append d name) "" = Dir_Append d name.
Proof. apply Join_fixed. Qed.

(** X2: [Split] panics on a path that [Append] returned only when both
    the path and the segment appended were empty. *)
Theorem Dir_Split_Append_panics (d : Dir) (name : string) :
  Dir_Split (Dir_Append d name) = None <-> d = "" /\ name = "".
Proof.
  rewrite <- Dir_Append_empty, Dir_Split_segments.
  by destruct (decide (Dir_Append d name = "")).
Qed.

(** X3: the segments of a path that [Append] returned are never empty,
    whereas [Split] keeps the empty segments of other paths. *)
Theorem Dir_Split_Append_segments (d : Dir) (name : string) (segs : list string) :
  Dir_Split (Dir_Append d name) = Some segs ->
  Forall (fun s => s <> "") segs.
Proof.
  unfold Dir_Append. destruct (Join_Clean [d; name]) as [->|(q & Hq & ->)]; [done|].
  rewrite Dir_Split_Clean by done. intros [= <-].
  pose proof (cleanState_nonempty q) as Hall.
  destruct (stack (cleanState q)) as [|e stk]; [|by apply Forall_reverse].
  destruct (isRooted q); by repeat constructor.
Qed.

Lemma Dir_Split_Append_segments_witness :
  Dir_Split (Dir_Append "/tmp//me/" "x//y") = Some ["tmp"; "me"; "x"; "y"]
  /\ Forall (fun s : string => s <> "") ["tmp"; "me"; "x"; "y"].
Proof.
  split; [reflexivity|].
  exact (Dir_Split_Append_segments "/tmp//me/" "x//y" ["tmp"; "me"; "x"; "y"] eq_refl).
Defined.

(** X4: appending a real segment (not empty, not [.] or [..], without
    separator) adds this one segment behind the segments of the
    cleaned path. *)
Theorem Dir_Split_Append_real (d : Dir) (name : string) :
  d <> "" -> Dir_Append d "" <> "." -> real name ->
  Dir_Split (Dir_Append d name)
  = (fun segs => segs ++ [name]) <$> Dir_Split (Dir_Append d "").
Proof.
  intros Hd Hdot Hname.
  rewrite Dir_Append_nothing in * by done.
  rewrite Dir_Append_nonempty by done.
  rewrite !Dir_Split_Clean by (done || by apply append_nonempty).
  rewrite cleanState_app_real by done. cbn [stack fmap option_fmap option_map].
  f_equal. rewrite reverse_cons.
  destruct (stack (cleanState d)) as [|e stk] eqn:Hstk; [|done].
  destruct (isRooted d) eqn:Hroot; [done|].
  exfalso. apply Hdot. rewrite Clean_render by done.
  unfold render. by rewrite Hroot, Hstk.
Qed.

Lemma Dir_Split_Append_real_witness :
  ("/h/t/.conf/" : string) <> "" /\ Dir_Append "/h/t/.conf/" "" <> "."
  /\ real "go-xdg-test"
  /\ Dir_Split (Dir_Append "/h/t/.conf/" "go-xdg-test")
     = Some (["h"; "t"; ".conf"] ++ ["go-xdg-test"]).
Proof.
  assert (real "go-xdg-test") as Hreal.
  { repeat split; discriminate. }
  split; [discriminate|]. split; [discriminate|]. split; [exact Hreal|].
  exact (Dir_Split_Append_real "/h/t/.conf/" "go-xdg-test"
           ltac:(discriminate) ltac:(discriminate) Hreal).
Defined.

(** X5: appending a real segment and then [..] leads back to the
    cleaned path. *)
Theorem Dir_Append_dotdot (d : Dir) (x : string) :
  d <> "" -> real x ->
  Dir_Append (Dir_Append d x) ".." = Dir_Append d "".
Proof.
  intros Hd Hx. unfold Dir_Append at 1 2. rewrite Join_Join.
  rewrite Join_cons_nonempty by done. unfold GoStrings.Join. cbn [String.concat].
  rewrite Dir_Append_nothing by done.
  set (q := d +:+ sep +:+ x).
  assert (q <> "") as Hq by by apply append_nonempty.
  replace (d +:+ sep +:+ x +:+ sep +:+ "..") with (q +:+ sep +:+ "..")
    by (unfold q; by rewrite !append_assoc).
  rewrite (Clean_render (q +:+ sep +:+ "..")) by by apply append_nonempty.
  rewrite (Clean_render d) by done.
  rewrite cleanState_app_elem by (done || by simpl).
  rewrite isRooted_app by done.
  unfold q at 1 3. rewrite isRooted_app by done.
  unfold q. rewrite cleanState_app_real, cleanStep_dotdot by done.
  cbn [stack protected length tail].
  pose proof (cleanState_protected_le d) as Hle.
  destruct (Nat.ltb_spec (protected (cleanState d)) (S (length (stack (cleanState d)))));
    [|lia].
  by destruct (cleanState d).
Qed.

Lemma Dir_Append_dotdot_witness :
  ("/h/t//" : string) <> "" /\ real "app"
  /\ Dir_Append (Dir_Append "/h/t//" "app") ".." = "/h/t".
Proof.
  assert (real "app") as Hreal by (repeat split; discriminate).
  split; [discriminate|]. split; [exact Hreal|].
  exact (Dir_Append_dotdot "/h/t//" "app" ltac:(discriminate) Hreal).
Defined.

(** X6: whatever is appended to an absolute path, the segments of the
    result are real ones: none is empty, [.] or [..]. *)
Theorem Dir_Split_Append_abs (d : Dir) (name : string) :
  IsAbs d = true ->
  exists segs, Dir_Split (Dir_Append d name) = Some segs /\ Forall real segs.
Proof.
  intros Habs. assert (d <> "") as Hd by (by intros ->).
  rewrite Dir_Append_nonempty by done.
  assert (isRooted (d +:+ sep +:+ name) = true) as Hroot
    by by rewrite isRooted_app.
  rewrite Dir_Split_Clean, Hroot by by apply append_nonempty.
  eexists. split; [done|].
  pose proof (cleanState_rooted_real _ Hroot) as Hall.
  destruct (stack (cleanState (d +:+ sep +:+ name))); [constructor|].
  by apply Forall_reverse.
Qed.

Lemma Dir_Split_Append_abs_witness :
  IsAbs "/h/t" = true
  /\ exists segs, Dir_Split (Dir_Append "/h/t" "../../../x/./y") = Some segs
                  /\ Forall real segs.
Proof.
  split; [reflexivity|].
  exact (Dir_Split_Append_abs "/h/t" "../../../x/./y" eq_refl).
Defined.

End AppendSplit.

(** ** Further properties of the resolver *)

Lemma UserHomeDir_nonempty (env : gmap string string) home :
  Os.UserHomeDir env = (home, Os.nil) -> home <> "".
Proof.
  unfold Os.UserHomeDir. destruct (decide (Os.Getenv env "HOME" = "")); [done|].
  congruence.
Qed.

Lemma defaultVal_role {F} `{DirFinder F} (xdg : XDG F) home key :
  defaultVal xdg home key
  = match homeRoleOf (GoStrings.ToUpper key) with
    | Some r => Filepath.Join [home; defaultBase r; Name (finder xdg)]
    | None => ""
    end.
Proof.
  unfold defaultVal, homeRoleOf.
  repeat (destruct (decide _); [apply Join_Join|]). done.
Qed.

(** What [getDir] returns, case by case. *)
Lemma getDir_cases {F} `{DirFinder F} (env : gmap string string) (xdg : XDG F) key :
  getDir env xdg key
  = match env !! key with
    | Some V => Filepath.Join [V; Name (finder xdg)]
    | None =>
        if decide (key = runtimeDirKey) then ""
        else match Os.UserHomeDir env with
             | (home, Os.nil) =>
                 match homeRoleOf (GoStrings.ToUpper key) with
                 | Some r => Filepath.Join [home; defaultBase r; Name (finder xdg)]
                 | None => Filepath.Join [home; "." +:+ Name (finder xdg)]
                 end
             | _ => ""
             end
    end.
Proof.
  unfold getDir, Os.LookupEnv. destruct (env !! key) as [V|]; [done|].
  destruct (decide (key = runtimeDirKey)); [done|].
  destruct (Os.UserHomeDir env) as [home err] eqn:Hhome.
  destruct err; try done.
  pose proof (UserHomeDir_nonempty _ _ Hhome) as Hne.
  rewrite defaultVal_role.
  destruct (homeRoleOf (GoStrings.ToUpper key)) as [r|]; [|done].
  pose proof (Join_nonempty home [defaultBase r; Name (finder xdg)] Hne).
  by destruct (Filepath.Join [home; defaultBase r; Name (finder xdg)]).
Qed.

(** What [getDirs] returns. *)
Lemma getDirs_cases {F} `{DirFinder F} (env : gmap string string) (xdg : XDG F) key :
  getDirs env xdg key
  = if decide (dirsValue env key = "") then []
    else map (fun e => Filepath.Join [e; Name (finder xdg)])
             (GoStrings.Split (dirsValue env key) Filepath.ListSeparator).
Proof.
  unfold getDirs, dirsValue, Os.LookupEnv.
  destruct (env !! key) as [v|]; rewrite joinEach_map; unfold Filepath.SplitList;
    match goal with |- context [0 <? String.length ?p] =>
      destruct (decide (p = "")) as [Hp|Hp]; [by rewrite Hp | by destruct p] end.
Qed.

Lemma Split_nonempty s c0 : GoStrings.Split s c0 <> [].
Proof. unfold GoStrings.Split. by destruct (GoStrings.cut c0 s). Qed.



(** X8: a single-path role resolves to the empty string in these cases
    and no others: its variable is set to the empty string and the name
    is empty too, or its variable is not set and the role is the runtime
    directory or the home directory is not found. *)
Theorem resolve_empty {F} `{DirFinder F} (env : gmap string string) (xdg : XDG F)
    (r : SingleRole) :
  resolve env xdg r = "" <->
  match env !! singleKey r with
  | Some V => V = "" /\ Name (finder xdg) = ""
  | None => r = RuntimeDir \/ snd (Os.UserHomeDir env) <> Os.nil
  end.
Proof.
  rewrite resolve_getDir, getDir_cases.
  destruct (env !! singleKey r) as [V|]; [apply Dir_Append_empty|].
  destruct r as [h|].
  - cbn [singleKey]. rewrite decide_False by by destruct h.
    assert (homeRoleOf (GoStrings.ToUpper (homeKey h)) = Some h) as ->
      by by destruct h.
    destruct (Os.UserHomeDir env) as [home err] eqn:Hhome.
    destruct err; cbn [snd];
      try (split; [intros _; right; discriminate | reflexivity]).
    pose proof (UserHomeDir_nonempty _ _ Hhome) as Hne.
    split.
    + intros Hjoin.
      by apply (Join_nonempty home [defaultBase h; Name (finder xdg)]) in Hne.
    + intros [Hr|Herr]; [discriminate Hr | by destruct Herr].
  - rewrite decide_True by done. split; [by left | done].
Qed.

(** X9: a search-path role resolves to no path at all exactly when its
    variable is set to the empty string. *)
Theorem resolveDirs_empty {F} `{DirFinder F} (env : gmap string string) (xdg : XDG F)
    (r : SearchRole) :
  resolveDirs env xdg r = [] <-> env !! searchKey r = Some "".
Proof.
  rewrite resolveDirs_getDirs, getDirs_cases.
  destruct (decide (dirsValue env (searchKey r) = "")) as [Hv|Hv].
  - split; [intros _|done]. revert Hv. unfold dirsValue.
    destruct (env !! searchKey r) as [v|]; [by intros ->|].
    destruct r; vm_compute; discriminate.
  - split.
    + intros Hmap. apply map_eq_nil in Hmap. by apply Split_nonempty in Hmap.
    + intros Hset. exfalso. apply Hv. unfold dirsValue. by rewrite Hset.
Qed.

(** X10: no path that [getDirs] returns is empty when the name is not:
    an empty piece of the list gives the relative path of the name. *)
Theorem getDirs_entries_nonempty {F} `{DirFinder F} (env : gmap string string)
    (xdg : XDG F) (key : string) :
  Name (finder xdg) <> "" ->
  Forall (fun p => p <> "") (getDirs env xdg key).
Proof.
  intros Hname. rewrite getDirs_cases.
  destruct (decide (dirsValue env key = "")); [constructor|].
  apply Forall_map, Forall_forall. intros e _ Hjoin.
  by apply (Dir_Append_empty e) in Hjoin as [_ ?].
Qed.

Lemma getDirs_entries_nonempty_witness :
  Name (finder (newXdg "app")) <> ""
  /\ getDirs (<[dataDirsKey := "/a::/b:"]> testEnv) (newXdg "app") dataDirsKey
     = ["/a/app"; "app"; "/b/app"; "app"]
  /\ Forall (fun p : string => p <> "")
       (getDirs (<[dataDirsKey := "/a::/b:"]> testEnv) (newXdg "app") dataDirsKey).
Proof.
  split; [cbn; discriminate|]. split; [reflexivity|].
  refine (getDirs_entries_nonempty (<[dataDirsKey := "/a::/b:"]> testEnv) (newXdg "app")
            dataDirsKey _).
  cbn. discriminate.
Defined.

Lemma UserHomeDir_agree (env env' : gmap string string) :
  env !! "HOME" = env' !! "HOME" -> Os.UserHomeDir env = Os.UserHomeDir env'.
Proof.
  intros Hhome. unfold Os.UserHomeDir, Os.Getenv, Os.LookupEnv. by rewrite Hhome.
Qed.

Lemma getDir_agree {F} `{DirFinder F} (env env' : gmap string string) (xdg : XDG F) key :
  env !! key = env' !! key -> env !! "HOME" = env' !! "HOME" ->
  getDir env xdg key = getDir env' xdg key.
Proof.
  intros Hkey Hhome.
  by rewrite !getDir_cases, Hkey, (UserHomeDir_agree env env').
Qed.

Lemma getDirs_agree {F} `{DirFinder F} (env env' : gmap string string) (xdg : XDG F) key :
  env !! key = env' !! key -> getDirs env xdg key = getDirs env' xdg key.
Proof. intros Hkey. rewrite !getDirs_cases. unfold dirsValue. by rewrite Hkey. Qed.

(** X11: a single-path role reads its own variable and [HOME] only:
    setting or unsetting any other variable leaves its path as it is. *)
Theorem resolve_other_variable {F} `{DirFinder F} (env : gmap string string)
    (xdg : XDG F) (r : SingleRole) (k v : string) :
  k <> singleKey r -> k <> "HOME" ->
  resolve (<[k := v]> env) xdg r = resolve env xdg r
  /\ resolve (delete k env) xdg r = resolve env xdg r.
Proof.
  intros Hk Hhome. rewrite !resolve_getDir. split; apply getDir_agree.
  - by rewrite lookup_insert_ne.
  - by rewrite lookup_insert_ne.
  - by rewrite lookup_delete_ne.
  - by rewrite lookup_delete_ne.
Qed.

Lemma resolve_other_variable_witness :
  (cacheHomeKey <> singleKey (Home ConfigHome) /\ cacheHomeKey <> "HOME")
  /\ resolve (<[cacheHomeKey := "/c"]> testEnv) (newXdg test_name) (Home ConfigHome)
     = resolve testEnv (newXdg test_name) (Home ConfigHome)
  /\ resolve (delete cacheHomeKey testEnv) (newXdg test_name) (Home ConfigHome)
     = resolve testEnv (newXdg test_name) (Home ConfigHome).
Proof.
  split; [split; discriminate|].
  exact (resolve_other_variable testEnv (newXdg test_name) (Home ConfigHome)
           cacheHomeKey "/c" ltac:(discriminate) ltac:(discriminate)).
Defined.

(** X12: a search-path role reads its own variable only, not even
    [HOME]: setting or unsetting any other variable leaves its paths as
    they are. *)
Theorem resolveDirs_other_variable {F} `{DirFinder F} (env : gmap string string)
    (xdg : XDG F) (r : SearchRole) (k v : string) :
  k <> searchKey r ->
  resolveDirs (<[k := v]> env) xdg r = resolveDirs env xdg r
  /\ resolveDirs (delete k env) xdg r = resolveDirs env xdg r.
Proof.
  intros Hk. rewrite !resolveDirs_getDirs. split; apply getDirs_agree.
  - by rewrite lookup_insert_ne.
  - by rewrite lookup_delete_ne.
Qed.

Lemma resolveDirs_other_variable_witness :
  "HOME" <> searchKey DataDirsRole
  /\ resolveDirs (<["HOME" := "/root"]> testEnv) (newXdg test_name) DataDirsRole
     = resolveDirs testEnv (newXdg test_name) DataDirsRole
  /\ resolveDirs (delete "HOME" testEnv) (newXdg test_name) DataDirsRole
     = resolveDirs testEnv (newXdg test_name) DataDirsRole.
Proof.
  split; [discriminate|].
  exact (resolveDirs_other_variable testEnv (newXdg test_name) DataDirsRole
           "HOME" "/root" ltac:(discriminate)).
Defined.

(** X13: every path that [getDir] and [getDirs] return is clean or
    empty: appending nothing to it gives it back. *)
Theorem resolved_paths_clean {F} `{DirFinder F} (env : gmap string string)
    (xdg : XDG F) (key : string) :
  Dir_Append (getDir env xdg key) "" = getDir env xdg key
  /\ Forall (fun p => Dir_Append p "" = p) (getDirs env xdg key).
Proof.
  split.
  - rewrite getDir_cases.
    destruct (env !! key); [apply Join_fixed|].
    destruct (decide (key = runtimeDirKey)); [done|].
    destruct (Os.UserHomeDir env) as [home []]; try done.
    destruct (homeRoleOf (GoStrings.ToUpper key)); apply Join_fixed.
  - rewrite getDirs_cases.
    destruct (decide (dirsValue env key = "")); [constructor|].
    apply Forall_map, Forall_forall. intros e _. apply Join_fixed.
Qed.

Lemma IsAbs_Join e elem : e <> "" -> IsAbs (Filepath.Join (e :: elem)) = IsAbs e.
Proof.
  intros He. rewrite Join_cons_nonempty by done. unfold IsAbs, GoStrings.Join.
  assert (exists t, String.concat Filepath.sep (e :: elem) = e +:+ t) as [t ->].
  { destruct elem; [exists ""|eexists; reflexivity].
    cbn [String.concat]. clear. induction e as [|c e IH]; [done|].
    rewrite append_cons. by f_equal. }
  rewrite isRooted_Clean by by apply append_nonempty.
  by apply isRooted_app.
Qed.

(** X14: the path of a single-path role is absolute exactly when its
    base is: the value of the variable if that is set and not empty,
    the home directory if the variable is not set. *)
Theorem resolve_IsAbs {F} `{DirFinder F} (env : gmap string string) (xdg : XDG F)
    (r : SingleRole) (B : string) :
  (env !! singleKey r = Some B /\ B <> "")
  \/ (env !! singleKey r = None /\ r <> RuntimeDir
      /\ Os.UserHomeDir env = (B, Os.nil)) ->
  IsAbs (resolve env xdg r) = IsAbs B.
Proof.
  rewrite resolve_getDir, getDir_cases.
  intros [[-> HB]|(-> & Hr & Hhome)]; [by apply IsAbs_Join|].
  pose proof (UserHomeDir_nonempty _ _ Hhome) as HB. rewrite Hhome.
  destruct r as [h|]; [|done]. cbn [singleKey].
  rewrite decide_False by by destruct h.
  assert (homeRoleOf (GoStrings.ToUpper (homeKey h)) = Some h) as ->
    by by destruct h.
  by apply IsAbs_Join.
Qed.

Lemma resolve_IsAbs_witness :
  ((<[configHomeKey := "conf"]> testEnv) !! singleKey (Home ConfigHome) = Some "conf"
   /\ IsAbs (resolve (<[configHomeKey := "conf"]> testEnv) (newXdg test_name)
               (Home ConfigHome)) = false)
  /\ (Os.UserHomeDir testEnv = ("/home/t", Os.nil)
      /\ IsAbs (resolve testEnv (newXdg test_name) (Home StateHome)) = true).
Proof.
  split; (split; [reflexivity|]).
  - refine (resolve_IsAbs (<[configHomeKey := "conf"]> testEnv) (newXdg test_name)
              (Home ConfigHome) "conf" (or_introl (conj eq_refl _))).
    discriminate.
  - refine (resolve_IsAbs testEnv (newXdg test_name) (Home StateHome) "/home/t"
              (or_intror (conj eq_refl (conj _ eq_refl)))).
    discriminate.
Defined.

Lemma Split_defaultConfigDirs :
  GoStrings.Split defaultConfigDirs Filepath.ListSeparator = ["/etc/xdg"].
Proof. reflexivity. Qed.

Lemma Split_defaultDataDirs :
  GoStrings.Split defaultDataDirs Filepath.ListSeparator
  = ["/usr/local/share/"; "/usr/share/"].
Proof. reflexivity. Qed.

(** X15: the default paths of a search-path role are absolute, whatever
    the name is. *)
Theorem resolveDirs_default_IsAbs {F} `{DirFinder F} (env : gmap string string)
    (xdg : XDG F) (r : SearchRole) :
  env !! searchKey r = None ->
  Forall (fun p => IsAbs p = true) (resolveDirs env xdg r).
Proof.
  intros Hunset. rewrite resolveDirs_getDirs, getDirs_cases.
  unfold dirsValue. rewrite Hunset. destruct r; cbn [searchKey].
  - rewrite (decide_False (P := configDirsKey = dataDirsKey)) by done.
    rewrite (decide_True (P := configDirsKey = configDirsKey)) by done.
    rewrite decide_False by done. rewrite Split_defaultConfigDirs.
    repeat constructor. by rewrite IsAbs_Join.
  - rewrite (decide_True (P := dataDirsKey = dataDirsKey)) by done.
    rewrite decide_False by done. rewrite Split_defaultDataDirs.
    repeat constructor; by rewrite IsAbs_Join.
Qed.

Lemma resolveDirs_default_IsAbs_witness :
  testEnv !! searchKey ConfigDirsRole = None
  /\ Forall (fun p => IsAbs p = true)
       (resolveDirs testEnv (newXdg "../x") ConfigDirsRole).
Proof.
  split; [reflexivity|].
  exact (resolveDirs_default_IsAbs testEnv (newXdg "../x") ConfigDirsRole eq_refl).
Defined.


(** ** Further properties of [Dir.Split]: the path and its segments *)

Section SplitRoundTrip.
Import Filepath.

Lemma append_nil_r' (s : string) : s +:+ "" = s.
Proof. induction s as [|c s IH]; [done|]. rewrite append_cons. by f_equal. Qed.

(** Joining the pieces of a split gives the text back. *)
Lemma concat_Split s : String.concat sep (GoStrings.Split s Separator) = s.
Proof.
  induction s as [|c s IH]; [done|].
  destruct (decide (c = Separator)) as [->|Hc].
  - rewrite Split_cons_sep.
    pose proof (Split_nonempty s Separator) as Hne.
    destruct (GoStrings.Split s Separator) as [|x xs]; [done|].
    change (String.concat sep ("" :: x :: xs))
      with (String Separator (String.concat sep (x :: xs))).
    by rewrite IH.
  - rewrite Split_cut, cut_cons_other by done. cbn [fst snd].
    rewrite Split_cut in IH.
    destruct (snd (GoStrings.cut Separator s)) as [|y ys].
    + simpl in *. by rewrite IH.
    + change (String.concat sep (String c ?x :: y :: ys))
        with (String c (String.concat sep (x :: y :: ys))).
      by rewrite IH.
Qed.

Lemma concat_dropLeadingEmpty l :
  exists lead, (lead = "" \/ lead = sep)
    /\ String.concat sep l = lead +:+ String.concat sep (dropLeadingEmpty l).
Proof.
  destruct l as [|x l]; [by exists ""; split; [left|]|].
  destruct x as [|c x]; [|by exists ""; split; [left|]].
  destruct l as [|y l]; [by exists ""; split; [left|]|].
  exists sep. by split; [right|].
Qed.

Lemma concat_dropTrailingEmpty l :
  exists trail, (trail = "" \/ trail = sep)
    /\ String.concat sep l = String.concat sep (dropTrailingEmpty l) +:+ trail.
Proof.
  unfold dropTrailingEmpty. destruct (last l) as [x|] eqn:Hlast.
  - destruct x as [|c x].
    + apply last_Some in Hlast as [l' ->].
      rewrite length_app. cbn [length].
      replace (length l' + 1 - 1) with (length l') by lia.
      rewrite take_app_length, concat_snoc.
      destruct l' as [|y l']; [by exists ""; split; [left|]|].
      exists sep. split; [by right|]. by rewrite append_nil_r'.
    + exists "". split; [by left|]. by rewrite append_nil_r'.
  - exists "". split; [by left|]. by rewrite append_nil_r'.
Qed.

(** X16: the segments that [Split] returns, joined by the separator,
    give the path back but for one separator at its head and one at its
    end. *)
Theorem Dir_Split_concat (d : Dir) (segs : list string) :
  Dir_Split d = Some segs ->
  exists lead trail,
    (lead = "" \/ lead = "/") /\ (trail = "" \/ trail = "/")
    /\ d = lead +:+ String.concat "/" segs +:+ trail.
Proof.
  rewrite Dir_Split_segments. destruct (decide (d = "")); [done|].
  intros [= <-]. unfold splitSegments.
  destruct (concat_dropLeadingEmpty (GoStrings.Split d Separator))
    as (lead & Hlead & Heq).
  destruct (concat_dropTrailingEmpty (dropLeadingEmpty (GoStrings.Split d Separator)))
    as (trail & Htrail & Heq').
  exists lead, trail. repeat split; [done..|].
  rewrite concat_Split in Heq. etrans; [exact Heq|]. by rewrite Heq'.
Qed.

Lemma Dir_Split_concat_witness :
  Dir_Split "/tmp//me/" = Some ["tmp"; ""; "me"]
  /\ exists lead trail,
       (lead = "" \/ lead = "/") /\ (trail = "" \/ trail = "/")
       /\ "/tmp//me/" = lead +:+ String.concat "/" ["tmp"; ""; "me"] +:+ trail.
Proof.
  split; [reflexivity|].
  exact (Dir_Split_concat "/tmp//me/" ["tmp"; ""; "me"] eq_refl).
Defined.

(** X17: [Split] gives back the segments a path was built from, between
    a separator at its head and one at its end, the empty segments
    included; so it does for the bare path when its first and last
    segment are not empty. *)
Theorem Dir_Split_built (segs : list string) :
  segs <> [] -> Forall (sepFree Separator) segs ->
  Dir_Split ("/" +:+ String.concat "/" segs +:+ "/") = Some segs
  /\ (head segs <> Some "" -> last segs <> Some "" ->
      Dir_Split (String.concat "/" segs) = Some segs).
Proof.
  intros Hne Hfree.
  pose proof (Split_concat Separator segs Hne Hfree) as Hsplit.
  split.
  - rewrite Dir_Split_segments, decide_False by done. f_equal.
    unfold splitSegments.
    change ("/" +:+ ?t) with (String Separator t).
    rewrite Split_cons_sep. cbn [dropLeadingEmpty].
    change (String.concat "/" segs +:+ "/")
      with (String.concat "/" segs +:+ String Separator "").
    rewrite Split_app_sep. unfold Separator in *. rewrite Hsplit.
    change (GoStrings.Split "" "/") with [""].
    unfold dropTrailingEmpty. rewrite last_snoc, length_app. cbn [length].
    replace (length segs + 1 - 1) with (length segs) by lia.
    by rewrite take_app_length.
  - intros Hhead Hlast. rewrite Dir_Split_segments.
    destruct segs as [|x segs]; [done|].
    assert (x <> "") as Hx by (by intros ->).
    rewrite decide_False.
    2:{ destruct x; [done|]. by destruct segs. }
    f_equal. unfold splitSegments.
    unfold Separator in *. rewrite Hsplit, dropLeadingEmpty_keep by done.
    unfold dropTrailingEmpty.
    destruct (last (x :: segs)) as [[|c y]|]; done.
Qed.

Lemma Dir_Split_built_witness :
  (["tmp"; ""; "me"] : list string) <> []
  /\ Forall (sepFree Separator) ["tmp"; ""; "me"]
  /\ Dir_Split "/tmp//me/" = Some ["tmp"; ""; "me"]
  /\ Dir_Split "tmp//me" = Some ["tmp"; ""; "me"].
Proof.
  assert (Forall (sepFree Separator) ["tmp"; ""; "me"]) as Hfree.
  { repeat constructor; discriminate. }
  split; [discriminate|]. split; [exact Hfree|].
  pose proof (Dir_Split_built ["tmp"; ""; "me"] ltac:(discriminate) Hfree) as [H1 H2].
  split; [exact H1|].
  exact (H2 ltac:(discriminate) ltac:(discriminate)).
Defined.

(** X18: no segment that [Split] returns holds a separator. *)
Theorem Dir_Split_sepFree (d : Dir) (segs : list string) :
  Dir_Split d = Some segs -> Forall (sepFree Separator) segs.
Proof.
  rewrite Dir_Split_segments. destruct (decide (d = "")); [done|].
  intros [= <-]. unfold splitSegments.
  pose proof (Split_pieces_sepFree Separator d) as Hall.
  assert (Forall (sepFree Separator) (dropLeadingEmpty (GoStrings.Split d Separator)))
    as Hall'.
  { destruct (GoStrings.Split d Separator) as [|x xs]; [done|].
    destruct x; [by inversion Hall | done]. }
  unfold dropTrailingEmpty.
  destruct (last _) as [[|c x]|]; [by apply Forall_take | done..].
Qed.

Lemma Dir_Split_sepFree_witness :
  Dir_Split "/tmp//me/" = Some ["tmp"; ""; "me"]
  /\ Forall (sepFree Separator) ["tmp"; ""; "me"].
Proof.
  split; [reflexivity|].
  exact (Dir_Split_sepFree "/tmp//me/" ["tmp"; ""; "me"] eq_refl).
Defined.

End SplitRoundTrip.

(** ** The name as the last segment *)

Lemma Dir_Split_Join_real e x :
  real x -> exists segs, Dir_Split (Filepath.Join [e; x]) = Some (segs ++ [x]).
Proof.
  intros Hx. destruct (decide (e = "")) as [->|He].
  - rewrite Join_cons_empty, Join_cons_nonempty by by apply real_nonempty.
    unfold GoStrings.Join. cbn [String.concat].
    rewrite Dir_Split_Clean by by apply real_nonempty.
    rewrite cleanState_real by done. by exists [].
  - rewrite Join_cons_nonempty by done.
    unfold GoStrings.Join. cbn [String.concat].
    rewrite Dir_Split_Clean by by apply append_nonempty.
    rewrite cleanState_app_real by done. cbn [Filepath.stack].
    exists (reverse (Filepath.stack (cleanState e))). by rewrite reverse_cons.
Qed.

(** X19: when the name is a real segment (not empty, not [.] or [..],
    without separator), it is the last segment of every path that a
    role resolves to, unless the path is empty. *)
Theorem resolved_paths_end_in_name {F} `{DirFinder F} (env : gmap string string)
    (xdg : XDG F) (r : SingleRole) (r' : SearchRole) :
  real (Name (finder xdg)) ->
  (resolve env xdg r = ""
   \/ exists segs, Dir_Split (resolve env xdg r) = Some (segs ++ [Name (finder xdg)]))
  /\ Forall (fun p => exists segs, Dir_Split p = Some (segs ++ [Name (finder xdg)]))
       (resolveDirs env xdg r').
Proof.
  intros Hname. split.
  - rewrite resolve_getDir, getDir_cases.
    destruct (env !! singleKey r); [right; by apply Dir_Split_Join_real|].
    destruct r as [h|]; [|by left]. cbn [singleKey].
    rewrite decide_False by by destruct h.
    assert (homeRoleOf (GoStrings.ToUpper (homeKey h)) = Some h) as ->
      by by destruct h.
    destruct (Os.UserHomeDir env) as [home []]; try by left.
    right. rewrite <- Join_Join. by apply Dir_Split_Join_real.
  - rewrite resolveDirs_getDirs, getDirs_cases.
    destruct (decide (dirsValue env (searchKey r') = "")); [constructor|].
    apply Forall_map, Forall_forall. intros e _. by apply Dir_Split_Join_real.
Qed.

Lemma resolved_paths_end_in_name_witness :
  real (Name (finder (newXdg test_name)))
  /\ Dir_Split (resolve testEnv (newXdg test_name) (Home CacheHome))
     = Some (["home"; "t"; ".cache"] ++ [test_name])
  /\ ((resolve testEnv (newXdg test_name) (Home CacheHome) = ""
       \/ exists segs, Dir_Split (resolve testEnv (newXdg test_name) (Home CacheHome))
                       = Some (segs ++ [Name (finder (newXdg test_name))]))
      /\ Forall (fun p => exists segs,
                   Dir_Split p = Some (segs ++ [Name (finder (newXdg test_name))]))
           (resolveDirs testEnv (newXdg test_name) DataDirsRole)).
Proof.
  assert (real (Name (finder (newXdg test_name)))) as Hreal.
  { repeat split; discriminate. }
  split; [exact Hreal|]. split; [reflexivity|].
  exact (resolved_paths_end_in_name testEnv (newXdg test_name) (Home CacheHome)
           DataDirsRole Hreal).
Defined.
